(** * CrashDilte: the crash-game server of [script.js]

    A shallow embedding of the round state machine and of the betting
    handlers of the server, with the properties proved of them.

    Conventions of the embedding.
    - A JavaScript number is an exact rational ([Q]); [Date.now()] is an
      integer number of milliseconds ([Z]) handed to each handler by its
      caller, like every value read from [crypto.randomBytes].  The
      rounding of IEEE doubles is not represented, nor is [NaN]: a computed
      product or sum is that of the code up to that rounding, and the
      properties of the payouts and of the multiplier are stated on the
      values the server stores, compares and sends.
    - A request body is typed: [amount] is a number, [username] and
      [gameId] are strings.  [users] is a map over the names registered:
      the property names that the object literal inherits ([inherited]) are
      not keys of it.
    - The module-level variables ([users], [activeGames], [gameHistory],
      [onlineUsers], [gameState]) are the fields of one [server] record that
      every handler receives and returns.
    - [io.emit], [socket.emit] and [res.json] are the outputs of a handler:
      a list of [event]s and a [response]. *)

From Stdlib Require Import ZArith QArith Qabs Qround Qminmax Lia Lqa String List
  Bool.
From stdpp Require Import gmap strings list fin_maps.

Open Scope Q_scope.

(** ** Numbers *)

(** [e] in [generateCrashPoint]. *)
Definition e : Q := inject_Z (2 ^ 32).

(** [Math.floor]. *)
Definition Math_floor (x : Q) : Q := inject_Z (Qfloor x).

(** [generateCrashPoint], the 32-bit draw [h] (the value of
    [crypto.randomBytes(4).readUInt32LE(0)]) being its input. *)
Definition generateCrashPoint (h : Z) : Q :=
  let h := inject_Z h in
  let crashPoint := Math_floor ((100 * e - h) / (e - h)) / 100 in
  Qmax (101 # 100) (Qmin crashPoint 100).

(** [x.toFixed(d)]: the decimal string with [d] digits after the point that
    is nearest to [x], ties going to the larger magnitude.  The string is
    represented by the integer it denotes once the point is removed:
    [toFixed 2 x = 150] stands for ["1.50"]. *)
Definition toFixed (d : nat) (x : Q) : Z :=
  let scaled := Qabs x * inject_Z (10 ^ Z.of_nat d) in
  let n := Qfloor (scaled + (1 # 2)) in
  if Qlt_le_dec x 0 then (- n)%Z else n.

(** [a < b] and [a >= b] on numbers, as booleans. *)
Definition Qltb (a b : Q) : bool := if Qlt_le_dec a b then true else false.
Definition Qgeb (a b : Q) : bool := Qle_bool b a.

(** The number a [null]-able operand of [<] or [*] is converted to. *)
Definition to_number (x : option Q) : Q :=
  match x with Some q => q | None => 0 end.

(** [x || null] for an optional number: [undefined] and [0] are falsy. *)
Definition or_null (x : option Q) : option Q :=
  match x with
  | Some q => if Qeq_bool q 0 then None else Some q
  | None => None
  end.

(** ** Data *)

(** The object stored at [users[username]] by [/api/register]. *)
Record user := {
  user_id : string;
  username : string;
  password : string;
  balance : Q;
  gamesPlayed : Z;
  gamesWon : Z;
  totalProfit : Q;
  createdAt : Z
}.

(** The object pushed on [game.players] by [/api/place-bet]. *)
Record player := {
  player_id : string;
  player_username : string;
  bet : Q;
  cashOutMultiplier : option Q;
  cashedOut : bool;
  won : bool;
  profit : Q;
  joinedAt : Z
}.

(** The object built by [startNewGame]; [endTime] is added by [endGame]. *)
Record game := {
  game_id : string;
  isRunning : bool;
  multiplier : Q;
  crashPoint : Q;
  startTime : Z;
  players : list player;
  history : list Q;
  winner : option string;
  endTime : option Z
}.

(** An element of [gameHistory]: [{...game, players: game.players.length}]. *)
Record archived := {
  a_id : string;
  a_isRunning : bool;
  a_multiplier : Q;
  a_crashPoint : Q;
  a_startTime : Z;
  a_players : nat;
  a_history : list Q;
  a_winner : option string;
  a_endTime : option Z
}.

(** A value of [onlineUsers]. *)
Record online_user := {
  o_username : string;
  o_balance : Q;
  o_socketId : string;
  o_joinedAt : Z
}.

(** An object whose keys are enumerated in insertion order ([activeGames],
    whose keys are 16-digit hexadecimal strings, and the [Map]
    [onlineUsers]). *)
Fixpoint obj_get {A} (k : string) (o : list (string * A)) : option A :=
  match o with
  | [] => None
  | (k', v) :: o' => if String.eqb k' k then Some v else obj_get k o'
  end.

Fixpoint obj_set {A} (k : string) (v : A) (o : list (string * A))
  : list (string * A) :=
  match o with
  | [] => [(k, v)]
  | (k', v') :: o' =>
      if String.eqb k' k then (k, v) :: o' else (k', v') :: obj_set k v o'
  end.

Definition obj_delete {A} (k : string) (o : list (string * A))
  : list (string * A) :=
  List.filter (fun kv => negb (String.eqb (fst kv) k)) o.

Definition obj_values {A} (o : list (string * A)) : list A := List.map snd o.

(** The module-level variables.  [gameState] and [activeGames[id]] are two
    references to one object, so [gameState] is the key of that object;
    [None] is the literal [gameState] starts with, which is not running and
    is in no other variable. *)
Record server := {
  users : gmap string user;
  activeGames : list (string * game);
  gameHistory : list archived;
  onlineUsers : list (string * online_user);
  gameState : option string
}.

Definition initial : server :=
  {| users := ∅; activeGames := []; gameHistory := [];
     onlineUsers := []; gameState := None |}.

(** ** Outputs *)

(** What [io.emit] (and, for [game_state], [socket.emit] to one socket)
    sends, with the fields of each payload. *)
Inductive event :=
| game_start (gameId : string) (crashPoint : Q) (startTime : Z)
| game_update (gameId : string) (multiplier : Z) (timeElapsed : Z)
| game_end (gameId : string) (finalMultiplier : Z) (crashPoint : Q)
           (players : list player) (winners : nat)
| new_bet (gameId : string) (username : string) (amount : Q)
          (autoCashout : option Q)
| cash_out (gameId : string) (username : string) (multiplier : Z)
           (amount : Q)
| game_state (socketId : string) (currentGame : game)
| online_update (count : nat) (users : list string).

(** The [error] strings of the JSON failures. *)
Inductive error :=
| CredentialsRequired   (* 'Имя пользователя и пароль обязательны' *)
| UserExists            (* 'Пользователь уже существует' *)
| UserNotFound          (* 'Пользователь не найден' *)
| GameNotActive         (* 'Игра не активна' *)
| InsufficientFunds     (* 'Недостаточно средств' *)
| MinimumBet            (* 'Минимальная ставка 10' *)
| CannotPerform         (* 'Невозможно выполнить операцию' *)
| BetNotFound           (* 'Ставка не найдена' *).

(** A value of a JSON object of strings and numbers. *)
Inductive value :=
| Num (q : Q)
| Str (s : string).

(** What [res.json] sends. *)
Inductive response :=
| Failure (status : Z) (err : error)
| Registered (id : string) (username : string) (balance : Q)
| BetPlaced (balance : Q) (betId : string)
| CashedOut (multiplier : Z) (amount : Q) (balance : Q)
| UserData (userData : list (string * value)).

(** ** Handlers as state transformers with output *)

Definition M (A : Type) : Type := server -> A * server * list event.

#[global] Instance M_ret : MRet M := fun A a s => (a, s, []).
#[global] Instance M_bind : MBind M := fun A B f m s =>
  let '(a, s1, out1) := m s in
  let '(b, s2, out2) := f a s1 in
  (b, s2, out1 ++ out2).

Definition gets {A} (f : server -> A) : M A := fun s => (f s, s, []).
Definition modify (f : server -> server) : M unit := fun s => (tt, f s, []).
Definition emit (ev : event) : M unit := fun s => (tt, s, [ev]).

Definition state_of {A} (r : A * server * list event) : server := snd (fst r).
Definition result_of {A} (r : A * server * list event) : A := fst (fst r).
Definition output_of {A} (r : A * server * list event) : list event := snd r.

Definition set_users (f : gmap string user -> gmap string user) (s : server)
  : server :=
  {| users := f (users s); activeGames := activeGames s;
     gameHistory := gameHistory s; onlineUsers := onlineUsers s;
     gameState := gameState s |}.

Definition set_activeGames
  (f : list (string * game) -> list (string * game)) (s : server) : server :=
  {| users := users s; activeGames := f (activeGames s);
     gameHistory := gameHistory s; onlineUsers := onlineUsers s;
     gameState := gameState s |}.

Definition set_gameHistory (f : list archived -> list archived) (s : server)
  : server :=
  {| users := users s; activeGames := activeGames s;
     gameHistory := f (gameHistory s); onlineUsers := onlineUsers s;
     gameState := gameState s |}.

Definition set_onlineUsers
  (f : list (string * online_user) -> list (string * online_user))
  (s : server) : server :=
  {| users := users s; activeGames := activeGames s;
     gameHistory := gameHistory s; onlineUsers := f (onlineUsers s);
     gameState := gameState s |}.

Definition set_gameState (r : option string) (s : server) : server :=
  {| users := users s; activeGames := activeGames s;
     gameHistory := gameHistory s; onlineUsers := onlineUsers s;
     gameState := r |}.

(** The object [gameState] refers to. *)
Definition current (s : server) : option game :=
  match gameState s with
  | Some k => obj_get k (activeGames s)
  | None => None
  end.

(** [gameState.isRunning]. *)
Definition gameState_isRunning (s : server) : bool :=
  match current s with
  | Some g => isRunning g
  | None => false
  end.

(** An assignment to a field of [gameState]. *)
Definition update_current (f : game -> game) (s : server) : server :=
  match gameState s, current s with
  | Some k, Some g => set_activeGames (obj_set k (f g)) s
  | _, _ => s
  end.

(** ** The round state machine *)

Definition new_game (gameId : string) (crashPoint : Q) (now : Z) : game :=
  {| game_id := gameId; isRunning := true; multiplier := 1;
     crashPoint := crashPoint; startTime := now; players := [];
     history := []; winner := None; endTime := None |}.

(** [startNewGame]; [gameId] is the value of [generateGameId()], [h] the
    draw of [generateCrashPoint] and [now] the clock.  The interval and the
    timeout it installs are the inputs [Tick] and [Ceiling] below. *)
Definition startNewGame (gameId : string) (h : Z) (now : Z) : M unit :=
  running ← gets gameState_isRunning;
  if running : bool then mret tt
  else
    let crashPoint := generateCrashPoint h in
    modify (fun s =>
      set_activeGames (obj_set gameId (new_game gameId crashPoint now))
        (set_gameState (Some gameId) s));;
    emit (game_start gameId crashPoint now).

(** The body of [game.players.forEach] in [endGame], for the final
    multiplier [m] of the game. *)
Definition settle (m : Q) (p : player) : player :=
  if cashedOut p && Qltb (to_number (cashOutMultiplier p)) m then
    {| player_id := player_id p; player_username := player_username p;
       bet := bet p; cashOutMultiplier := cashOutMultiplier p;
       cashedOut := cashedOut p; won := true;
       profit := bet p * to_number (cashOutMultiplier p);
       joinedAt := joinedAt p |}
  else if negb (cashedOut p) then
    {| player_id := player_id p; player_username := player_username p;
       bet := bet p; cashOutMultiplier := cashOutMultiplier p;
       cashedOut := cashedOut p; won := false;
       profit := - bet p;
       joinedAt := joinedAt p |}
  else p.

Definition archive (g : game) : archived :=
  {| a_id := game_id g; a_isRunning := isRunning g;
     a_multiplier := multiplier g; a_crashPoint := crashPoint g;
     a_startTime := startTime g; a_players := length (players g);
     a_history := history g; a_winner := winner g;
     a_endTime := endTime g |}.

(** [gameHistory.push(entry)] followed by the cut to the last 100. *)
Definition history_push (entry : archived) (h : list archived)
  : list archived :=
  let h := h ++ [entry] in
  if (100 <? length h)%nat then drop (length h - 100)%nat h else h.

(** The game object once [endGame] has stopped it at clock [now] and
    settled its players. *)
Definition finished (g : game) (now : Z) : game :=
  {| game_id := game_id g; isRunning := false;
     multiplier := multiplier g; crashPoint := crashPoint g;
     startTime := startTime g;
     players := List.map (settle (multiplier g)) (players g);
     history := history g; winner := winner g;
     endTime := Some now |}.

(** [endGame(gameId)], [now] being the clock.  The restart it schedules is
    the input [Restart] below. *)
Definition endGame (gameId : string) (now : Z) : M unit :=
  og ← gets (fun s => obj_get gameId (activeGames s));
  match og with
  | None => mret tt
  | Some game =>
      if negb (isRunning game) then mret tt
      else
        let game := finished game now in
        modify (set_activeGames (obj_set gameId game));;
        modify (set_gameHistory (history_push (archive game)));;
        emit (game_end gameId (toFixed 2 (multiplier game))
                (crashPoint game) (players game)
                (length (List.filter won (players game))))
  end.

Definition set_multiplier (m : Q) (g : game) : game :=
  {| game_id := game_id g; isRunning := isRunning g; multiplier := m;
     crashPoint := crashPoint g; startTime := startTime g;
     players := players g; history := history g; winner := winner g;
     endTime := endTime g |}.

(** The callback of [setInterval] installed by the call of [startNewGame]
    that drew [gameId]; [now] and [endNow] are its two readings of the
    clock. *)
Definition tick (gameId : string) (now endNow : Z) : M unit :=
  cur ← gets current;
  match cur with
  | None => mret tt
  | Some g =>
      if negb (isRunning g) then mret tt
      else
        let timeElapsed := inject_Z (now - startTime g) / 1000 in
        let m := 1 + timeElapsed * (5 # 100) in
        modify (update_current (set_multiplier m));;
        if Qgeb m (crashPoint g) then endGame gameId endNow
        else emit (game_update gameId (toFixed 2 m) (toFixed 1 timeElapsed))
  end.

(** The callback of the 30 s [setTimeout] of the same call. *)
Definition ceiling (gameId : string) (now : Z) : M unit :=
  running ← gets gameState_isRunning;
  if running : bool then endGame gameId now else mret tt.

(** ** The HTTP handlers *)

(** [POST /api/register]; [id] is the random identifier, [now] the clock. *)
Definition api_register (name pass : string) (id : string) (now : Z)
  : M response :=
  if String.eqb name "" || String.eqb pass "" then
    mret (Failure 400 CredentialsRequired)
  else
    ou ← gets (fun s => users s !! name);
    match ou with
    | Some _ => mret (Failure 400 UserExists)
    | None =>
        let u := {| user_id := id; username := name; password := pass;
                    balance := 1000; gamesPlayed := 0; gamesWon := 0;
                    totalProfit := 0; createdAt := now |} in
        modify (set_users (insert name u));;
        mret (Registered (user_id u) name (balance u))
    end.

(** [POST /api/place-bet]; [betId] is the random token of the answer. *)
Definition api_place_bet (name gameId : string) (amount : Q)
    (autoCashout : option Q) (now : Z) (betId : string) : M response :=
  ou ← gets (fun s => users s !! name);
  og ← gets (fun s => obj_get gameId (activeGames s));
  match ou with
  | None => mret (Failure 404 UserNotFound)
  | Some user =>
      match og with
      | None => mret (Failure 400 GameNotActive)
      | Some game =>
          if negb (isRunning game) then mret (Failure 400 GameNotActive)
          else if Qltb (balance user) amount then
            mret (Failure 400 InsufficientFunds)
          else if Qltb amount 10 then mret (Failure 400 MinimumBet)
          else
            let user' :=
              {| user_id := user_id user; username := username user;
                 password := password user;
                 balance := balance user - amount;
                 gamesPlayed := (gamesPlayed user + 1)%Z;
                 gamesWon := gamesWon user;
                 totalProfit := totalProfit user;
                 createdAt := createdAt user |} in
            let player :=
              {| player_id := user_id user;
                 player_username := username user;
                 bet := amount; cashOutMultiplier := or_null autoCashout;
                 cashedOut := false; won := false; profit := 0;
                 joinedAt := now |} in
            let game' :=
              {| game_id := game_id game; isRunning := isRunning game;
                 multiplier := multiplier game;
                 crashPoint := crashPoint game; startTime := startTime game;
                 players := players game ++ [player];
                 history := history game; winner := winner game;
                 endTime := endTime game |} in
            modify (set_users (insert name user'));;
            modify (set_activeGames (obj_set gameId game'));;
            emit (new_bet gameId (username user) amount autoCashout);;
            mret (BetPlaced (balance user') betId)
      end
  end.

(** The predicate of [game.players.find] in [/api/cash-out]. *)
Definition open_bet_of (name : string) (p : player) : Prop :=
  player_username p = name /\ cashedOut p = false.

#[global] Instance open_bet_of_dec name p : Decision (open_bet_of name p).
Proof. unfold open_bet_of. apply _. Defined.

(** [POST /api/cash-out]. *)
Definition api_cash_out (name gameId : string) : M response :=
  ou ← gets (fun s => users s !! name);
  og ← gets (fun s => obj_get gameId (activeGames s));
  match ou, og with
  | Some user, Some game =>
      if negb (isRunning game) then mret (Failure 400 CannotPerform)
      else
        match list_find (open_bet_of name) (players game) with
        | None => mret (Failure 400 BetNotFound)
        | Some (i, player) =>
            let winAmount := bet player * multiplier game in
            let user' :=
              {| user_id := user_id user; username := username user;
                 password := password user;
                 balance := balance user + winAmount;
                 gamesPlayed := gamesPlayed user;
                 gamesWon := if Qltb (bet player) winAmount
                             then (gamesWon user + 1)%Z else gamesWon user;
                 totalProfit := totalProfit user + (winAmount - bet player);
                 createdAt := createdAt user |} in
            let player' :=
              {| player_id := player_id player;
                 player_username := player_username player;
                 bet := bet player;
                 cashOutMultiplier := Some (multiplier game);
                 cashedOut := true; won := true;
                 profit := winAmount - bet player;
                 joinedAt := joinedAt player |} in
            let game' :=
              {| game_id := game_id game; isRunning := isRunning game;
                 multiplier := multiplier game;
                 crashPoint := crashPoint game; startTime := startTime game;
                 players := <[i := player']> (players game);
                 history := history game; winner := winner game;
                 endTime := endTime game |} in
            modify (set_users (insert name user'));;
            modify (set_activeGames (obj_set gameId game'));;
            emit (cash_out gameId name (toFixed 2 (multiplier game))
                    winAmount);;
            mret (CashedOut (toFixed 2 (multiplier game)) winAmount
                    (balance user'))
        end
  | _, _ => mret (Failure 400 CannotPerform)
  end.

(** The own properties of a user object, in creation order. *)
Definition user_object (u : user) : list (string * value) :=
  [ ("id"%string, Str (user_id u));
    ("username"%string, Str (username u));
    ("password"%string, Str (password u));
    ("balance"%string, Num (balance u));
    ("gamesPlayed"%string, Num (inject_Z (gamesPlayed u)));
    ("gamesWon"%string, Num (inject_Z (gamesWon u)));
    ("totalProfit"%string, Num (totalProfit u));
    ("createdAt"%string, Num (inject_Z (createdAt u))) ].

(** [const { k, ...rest } = o]: the value bound to [k] and the object
    [rest]. *)
Definition destructure (k : string) (o : list (string * value))
  : option value * list (string * value) :=
  (obj_get k o, obj_delete k o).

(** [GET /api/user/:username]. *)
Definition api_user (name : string) : M response :=
  ou ← gets (fun s => users s !! name);
  match ou with
  | None => mret (Failure 404 UserNotFound)
  | Some user =>
      let '(password, userData) :=
        destructure "password" (user_object user) in
      mret (UserData userData)
  end.

(** ** The socket handlers *)

(** [socket.on('user_join')] of the socket [socketId]; the [userData] the
    client sends has a [username] and a [balance]. *)
Definition on_user_join (socketId : string) (name : string) (bal : Q)
    (now : Z) : M unit :=
  modify (set_onlineUsers (obj_set socketId
    {| o_username := name; o_balance := bal; o_socketId := socketId;
       o_joinedAt := now |}));;
  games ← gets (fun s => obj_values (activeGames s));
  match List.find isRunning games with
  | Some currentGame => emit (game_state socketId currentGame)
  | None => mret tt
  end;;
  online ← gets (fun s => obj_values (onlineUsers s));
  emit (online_update (length online) (List.map o_username online)).

(** [socket.on('disconnect')]. *)
Definition on_disconnect (socketId : string) : M unit :=
  modify (set_onlineUsers (obj_delete socketId));;
  online ← gets (fun s => obj_values (onlineUsers s));
  emit (online_update (length online) (List.map o_username online)).

(** ** The server as a reactive system *)

(** What the event loop can run next: a request, a socket message or an
    expired timer.  Each runs to completion before the next starts. *)
Inductive input :=
| Register (name pass id : string) (now : Z)
| PlaceBet (name gameId : string) (amount : Q) (autoCashout : option Q)
           (now : Z) (betId : string)
| CashOut (name gameId : string)
| GetUser (name : string)
| UserJoin (socketId name : string) (bal : Q) (now : Z)
| Disconnect (socketId : string)
| Restart (gameId : string) (h : Z) (now : Z)
| Tick (gameId : string) (now endNow : Z)
| Ceiling (gameId : string) (now : Z).

Definition handle (i : input) : M (option response) :=
  match i with
  | Register name pass id now =>
      r ← api_register name pass id now; mret (Some r)
  | PlaceBet name gameId amount autoCashout now betId =>
      r ← api_place_bet name gameId amount autoCashout now betId;
      mret (Some r)
  | CashOut name gameId => r ← api_cash_out name gameId; mret (Some r)
  | GetUser name => r ← api_user name; mret (Some r)
  | UserJoin socketId name bal now =>
      on_user_join socketId name bal now;; mret None
  | Disconnect socketId => on_disconnect socketId;; mret None
  | Restart gameId h now => startNewGame gameId h now;; mret None
  | Tick gameId now endNow => tick gameId now endNow;; mret None
  | Ceiling gameId now => ceiling gameId now;; mret None
  end.

(** The server after the inputs [ins], with everything it emitted. *)
Fixpoint run (ins : list input) : M (list (option response)) :=
  match ins with
  | [] => mret []
  | i :: ins' => r ← handle i; rs ← run ins'; mret (r :: rs)
  end.

(** ** Views of the state and of the output used in the statements *)

(** The players of game [gameId]. *)
Definition players_of (gameId : string) (s : server) : list player :=
  match obj_get gameId (activeGames s) with
  | Some g => players g
  | None => []
  end.

(** The bets of [name] that are still open in a list of players. *)
Definition open_bets (name : string) (ps : list player) : list player :=
  filter (open_bet_of name) ps.

(** What a cash-out decides about a bet: whose it is, the stake, the
    stored multiplier and whether it is still open. *)
Definition bet_status (p : player) : string * Q * option Q * bool :=
  (player_username p, bet p, cashOutMultiplier p, cashedOut p).

(** The multiplier a tick at clock [now] computes for the game [g]. *)
Definition tick_multiplier (g : game) (now : Z) : Q :=
  1 + inject_Z (now - startTime g) / 1000 * (5 # 100).


(** The last [n] elements of a list: [l.slice(-n)]. *)
Definition last_n {A} (n : nat) (l : list A) : list A :=
  drop (length l - n) l.

(** What identifies a completed round in [gameHistory]: identifier, final
    multiplier to two decimals, crash point and number of players. *)
Definition entry_key (a : archived) : string * Z * Q * nat :=
  (a_id a, toFixed 2 (a_multiplier a), a_crashPoint a, a_players a).

(** The rounds that an output reports as completed, oldest first, with the
    same identification. *)
Definition ended (out : list event) : list (string * Z * Q * nat) :=
  List.flat_map
    (fun ev => match ev with
               | game_end gameId finalMultiplier crashPoint players _ =>
                   [(gameId, finalMultiplier, crashPoint, length players)]
               | _ => []
               end) out.

(** Every game of [activeGames] is stored under its own identifier. *)
Definition keyed (s : server) : Prop :=
  Forall (fun kg => game_id (snd kg) = fst kg) (activeGames s).

(** One handler either leaves [gameHistory] alone and reports no completed
    round, or pushes one entry and reports that round. *)
Definition history_step (s s' : server) (out : list event) : Prop :=
  (gameHistory s' = gameHistory s /\ ended out = []) \/
  (exists a, gameHistory s' = history_push a (gameHistory s) /\
             ended out = [entry_key a]).

(** The account [u] with another stored password. *)
Definition with_password (pw : string) (u : user) : user :=
  {| user_id := user_id u; username := username u; password := pw;
     balance := balance u; gamesPlayed := gamesPlayed u;
     gamesWon := gamesWon u; totalProfit := totalProfit u;
     createdAt := createdAt u |}.

(** No game of [activeGames] is running. *)
Definition all_stopped (s : server) : Prop :=
  Forall (fun kg => isRunning (snd kg) = false) (activeGames s).

(** ** Example runs *)

(** A draw whose crash point is 2.00, and one whose crash point is 5.00;
    the draw 0 gives 1.01. *)
Definition draw_2_00 : Z := 2158275024.
Definition draw_5_00 : Z := 3442859556.

(** One registered account and a round started at clock 1000. *)
Definition alice_joins (h : Z) : list input :=
  [ Register "alice" "secret" "u1" 0; Restart "g1" h 1000 ].

(** The ticks of game [gameId] at the clock values [t + 100], [t + 200],
    ..., [t + 100 * n]. *)
Fixpoint ticks (gameId : string) (t : Z) (n : nat) : list input :=
  match n with
  | O => []
  | S n' => Tick gameId (t + 100) (t + 100) :: ticks gameId (t + 100) n'
  end.

(** [n] rounds in a row with crash point 1.01, each stopped by its second
    tick; the round numbered [i] has the one-character identifier of code
    [i]. *)
Definition round_id (i : nat) : string :=
  String (Ascii.ascii_of_nat i) EmptyString.

Fixpoint rounds (first n : nat) (t : Z) : list input :=
  match n with
  | O => []
  | S n' =>
      Restart (round_id first) 0 t
      :: ticks (round_id first) t 3 ++ rounds (S first) n' (t + 5300)
  end.

(** ** The other endpoints *)

(** What [POST /api/login] answers. *)
Inductive login_response :=
| LoginFailure (status : Z)     (* 'Неверные данные для входа' *)
| LoggedIn (id : string) (username : string) (balance : Q)
           (gamesPlayed : Z) (gamesWon : Z) (totalProfit : Q).

(** [POST /api/login]. *)
Definition api_login (name pass : string) : M login_response :=
  ou ← gets (fun s => users s !! name);
  match ou with
  | None => mret (LoginFailure 401)
  | Some user =>
      if negb (String.eqb (password user) pass) then
        mret (LoginFailure 401)
      else
        mret (LoggedIn (user_id user) (username user) (balance user)
                (gamesPlayed user) (gamesWon user) (totalProfit user))
  end.

(** [GET /api/game-history]: [gameHistory.slice(-20).reverse()]. *)
Definition api_game_history : M (list archived) :=
  gets (fun s => rev (last_n 20 (gameHistory s))).

(** [GET /api/online-users]: the [username], [balance] and [joinedAt] of
    every value of [onlineUsers]. *)
Definition api_online_users : M (list (string * Q * Z)) :=
  gets (fun s =>
    List.map (fun user => (o_username user, o_balance user, o_joinedAt user))
      (obj_values (onlineUsers s))).

(** ** The assignments of the handlers, one by one *)

(** The account [/api/register] creates. *)
Definition new_user (id name pass : string) (now : Z) : user :=
  {| user_id := id; username := name; password := pass;
     balance := 1000; gamesPlayed := 0; gamesWon := 0;
     totalProfit := 0; createdAt := now |}.

(** The account after [/api/place-bet] took [amount] from it. *)
Definition debit (amount : Q) (u : user) : user :=
  {| user_id := user_id u; username := username u;
     password := password u;
     balance := balance u - amount;
     gamesPlayed := (gamesPlayed u + 1)%Z;
     gamesWon := gamesWon u;
     totalProfit := totalProfit u;
     createdAt := createdAt u |}.

(** The player [/api/place-bet] pushes for the account [u]. *)
Definition new_player (u : user) (amount : Q) (autoCashout : option Q)
    (now : Z) : player :=
  {| player_id := user_id u;
     player_username := username u;
     bet := amount; cashOutMultiplier := or_null autoCashout;
     cashedOut := false; won := false; profit := 0;
     joinedAt := now |}.

(** The game with another array of players. *)
Definition with_players (ps : list player) (g : game) : game :=
  {| game_id := game_id g; isRunning := isRunning g;
     multiplier := multiplier g;
     crashPoint := crashPoint g; startTime := startTime g;
     players := ps;
     history := history g; winner := winner g;
     endTime := endTime g |}.

(** The account after [/api/cash-out] paid the bet of [p] at multiplier
    [m]. *)
Definition credit (m : Q) (p : player) (u : user) : user :=
  {| user_id := user_id u; username := username u;
     password := password u;
     balance := balance u + bet p * m;
     gamesPlayed := gamesPlayed u;
     gamesWon := if Qltb (bet p) (bet p * m)
                 then (gamesWon u + 1)%Z else gamesWon u;
     totalProfit := totalProfit u + (bet p * m - bet p);
     createdAt := createdAt u |}.

(** The player after [/api/cash-out] closed its bet at multiplier [m]. *)
Definition cashed (m : Q) (p : player) : player :=
  {| player_id := player_id p;
     player_username := player_username p;
     bet := bet p;
     cashOutMultiplier := Some m;
     cashedOut := true; won := true;
     profit := bet p * m - bet p;
     joinedAt := joinedAt p |}.

(** What one handler can do to the variables of the server, with the
    conditions under which it does it. *)
Inductive transition (s : server) : server -> Prop :=
| t_join (socketId : string) (v : online_user) :
    transition s (set_onlineUsers (obj_set socketId v) s)
| t_leave (socketId : string) :
    transition s (set_onlineUsers (obj_delete socketId) s)
| t_register (name pass id : string) (now : Z) :
    name <> ""%string -> pass <> ""%string ->
    users s !! name = None ->
    transition s (set_users (insert name (new_user id name pass now)) s)
| t_bet (name gameId : string) (amount : Q) (autoCashout : option Q)
        (now : Z) (u : user) (g : game) :
    users s !! name = Some u ->
    obj_get gameId (activeGames s) = Some g ->
    isRunning g = true ->
    amount <= balance u ->
    10 <= amount ->
    transition s
      (set_activeGames
         (obj_set gameId
            (with_players
               (players g ++ [new_player u amount autoCashout now]) g))
         (set_users (insert name (debit amount u)) s))
| t_cash (name gameId : string) (u : user) (g : game) (i : nat)
         (p : player) :
    users s !! name = Some u ->
    obj_get gameId (activeGames s) = Some g ->
    isRunning g = true ->
    list_find (open_bet_of name) (players g) = Some (i, p) ->
    transition s
      (set_activeGames
         (obj_set gameId
            (with_players (<[i := cashed (multiplier g) p]> (players g)) g))
         (set_users (insert name (credit (multiplier g) p u)) s))
| t_start (gameId : string) (h : Z) (now : Z) :
    gameState_isRunning s = false ->
    transition s
      (set_activeGames
         (obj_set gameId (new_game gameId (generateCrashPoint h) now))
         (set_gameState (Some gameId) s))
| t_multiplier (m : Q) (g : game) :
    current s = Some g ->
    isRunning g = true ->
    transition s (update_current (set_multiplier m) s)
| t_end (gameId : string) (now : Z) (g : game) :
    obj_get gameId (activeGames s) = Some g ->
    isRunning g = true ->
    transition s
      (set_gameHistory (history_push (archive (finished g now)))
         (set_activeGames (obj_set gameId (finished g now)) s)).

(** A state the server can be in: the state after some inputs. *)
Definition reachable (s : server) : Prop :=
  exists ins, s = state_of (run ins initial).

(** What every bet of a game satisfies: it is won if it is cashed out, and
    its stake is at least 10. *)
Definition bet_ok (p : player) : Prop :=
  (cashedOut p = true -> won p = true) /\ 10 <= bet p.

(** What the variables of the server satisfy together. *)
Record consistent (s : server) : Prop := {
  games_keyed : keyed s;
  games_distinct : NoDup (List.map fst (activeGames s));
  running_is_current :
    Forall (fun kg => isRunning (snd kg) = true ->
                      gameState s = Some (fst kg)) (activeGames s);
  users_keyed :
    forall name u, users s !! name = Some u -> username u = name;
  bets_ok :
    Forall (fun kg => Forall bet_ok (players (snd kg))) (activeGames s);
  sockets_distinct : NoDup (List.map fst (onlineUsers s))
}.

(** ** The clock of the ticks *)

(** The interval of a round is cleared by the tick that stops the round,
    or by its first tick that finds no round running, and the next round
    starts 5 s after a round is stopped; so a tick that finds a round
    running is a tick of the interval of that round.  [own_tick] says so of
    one input, and that the clock of the tick is not before the start of
    the round; [own_ticks] says it of every input of a sequence. *)
Definition own_tick (i : input) (s : server) : Prop :=
  match i with
  | Tick gameId now _ =>
      forall g, current s = Some g -> isRunning g = true ->
                gameState s = Some gameId /\ (startTime g <= now)%Z
  | _ => True
  end.

Fixpoint own_ticks (ins : list input) (s : server) : Prop :=
  match ins with
  | [] => True
  | i :: ins' => own_tick i s /\ own_ticks ins' (state_of (handle i s))
  end.

(** The same condition as a test. *)
Definition own_tickb (i : input) (s : server) : bool :=
  match i with
  | Tick gameId now _ =>
      match current s, gameState s with
      | Some g, Some k =>
          negb (isRunning g) || (String.eqb k gameId && (startTime g <=? now)%Z)
      | Some g, None => negb (isRunning g)
      | None, _ => true
      end
  | _ => true
  end.

Fixpoint own_ticksb (ins : list input) (s : server) : bool :=
  match ins with
  | [] => true
  | i :: ins' => own_tickb i s && own_ticksb ins' (state_of (handle i s))
  end.

(** The multiplier of every running game is at least 1 and below the crash
    point of the game, and no balance is negative. *)
Definition in_range (s : server) : Prop :=
  Forall (fun kg => isRunning (snd kg) = true ->
                    1 <= multiplier (snd kg) /\
                    multiplier (snd kg) < crashPoint (snd kg))
    (activeGames s) /\
  forall name u, users s !! name = Some u -> 0 <= balance u.

(** ** Whose account an input is about *)

(** The [username] of the body of a request; the other inputs have
    none. *)
Definition requester (i : input) : option string :=
  match i with
  | Register name _ _ _ => Some name
  | PlaceBet name _ _ _ _ _ => Some name
  | CashOut name _ => Some name
  | _ => None
  end.

(** An entry of the history of a round that was stopped. *)
Definition archived_stopped (a : archived) : Prop :=
  a_isRunning a = false /\ is_Some (a_endTime a).

(** ** The counters of the accounts *)

(** The number of open bets of [name] in all the games of an object. *)
Definition open_count (name : string) (o : list (string * game)) : nat :=
  list_sum
    (List.map (fun kg => length (open_bets name (players (snd kg)))) o).

(** Every account has won no more games than it has played, its open bets
    not counted; and every bet is the bet of an account. *)
Definition counted (s : server) : Prop :=
  (forall name u, users s !! name = Some u ->
     (0 <= gamesWon u)%Z /\
     (gamesWon u + Z.of_nat (open_count name (activeGames s))
      <= gamesPlayed u)%Z) /\
  Forall (fun kg =>
            Forall (fun p => is_Some (users s !! player_username p))
              (players (snd kg)))
    (activeGames s).

(** ** What the requests are assumed to carry *)

(** The property names that [users], an object literal, can inherit: the
    properties of [Object.prototype], and [balance] and [gamesPlayed],
    which [/api/place-bet] writes on [Object.prototype] when its username
    is [__proto__].  For such a name [users[username]] is not the account
    of that name; the handlers are modelled for the other names. *)
Definition inherited (name : string) : bool :=
  existsb (String.eqb name)
    [ "constructor"; "__defineGetter__"; "__defineSetter__";
      "hasOwnProperty"; "__lookupGetter__"; "__lookupSetter__";
      "isPrototypeOf"; "propertyIsEnumerable"; "toString"; "valueOf";
      "__proto__"; "toLocaleString"; "balance"; "gamesPlayed" ]%string.

(** The input starts a round under the identifier [gameId]. *)
Definition restarts (gameId : string) (i : input) : Prop :=
  match i with
  | Restart k _ _ => k = gameId
  | _ => False
  end.

(** No input of the sequence starts a round under the identifier
    [gameId]: the identifier, eight random bytes, is not drawn again. *)
Definition no_restart (gameId : string) (ins : list input) : Prop :=
  Forall (fun i => ~ restarts gameId i) ins.

(** Unfolding of the operations of [M]. *)
Ltac unfold_M :=
  unfold mbind, M_bind, mret, M_ret, gets, modify, emit,
    state_of, result_of, output_of in *.

(** A handler that returned without touching the games or the history. *)
Ltac unchanged := split; [assumption|left; split; reflexivity].

(** ** Properties of the numbers *)

Lemma Qfloor_div_Z (a b : Z) :
  (0 < b)%Z -> Qfloor (inject_Z a / inject_Z b) = (a / b)%Z.
Proof.
  intros Hb. destruct b as [|p|p]; try lia.
  unfold Qdiv, Qinv, Qmult, inject_Z, Qfloor. simpl.
  now rewrite Z.mul_1_r.
Qed.

Lemma raw_crash_cents (h : Z) :
  (0 <= h < 2 ^ 32)%Z ->
  Qfloor ((100 * e - inject_Z h) / (e - inject_Z h))
  = ((100 * 2 ^ 32 - h) / (2 ^ 32 - h))%Z.
Proof.
  intros Hh. unfold e.
  assert (H1 : 100 * inject_Z (2 ^ 32) - inject_Z h
               == inject_Z (100 * 2 ^ 32 - h)).
  { unfold Qeq, Qminus, Qplus, Qmult, Qopp, inject_Z. simpl. lia. }
  assert (H2 : inject_Z (2 ^ 32) - inject_Z h == inject_Z (2 ^ 32 - h)).
  { unfold Qeq, Qminus, Qplus, Qopp, inject_Z. simpl. lia. }
  rewrite H1, H2. apply Qfloor_div_Z. lia.
Qed.

Lemma cents_clamp (k : Z) :
  Qmax (101 # 100) (Qmin (inject_Z k / 100) 100)
  == Z.max 101 (Z.min k 10000) # 100.
Proof.
  assert (Hk : inject_Z k / 100 == k # 100).
  { unfold Qdiv, Qinv, Qmult, inject_Z, Qeq. simpl. lia. }
  rewrite Hk.
  destruct (Z_le_gt_dec k 10000) as [Hle|Hgt].
  - rewrite (Q.min_l (k # 100) 100) by (unfold Qle; simpl; lia).
    rewrite Z.min_l by lia.
    destruct (Z_le_gt_dec k 101) as [Hl|Hg].
    + rewrite Q.max_l by (unfold Qle; simpl; lia).
      rewrite Z.max_l by lia. reflexivity.
    + rewrite Q.max_r by (unfold Qle; simpl; lia).
      rewrite Z.max_r by lia. reflexivity.
  - rewrite (Q.min_r (k # 100) 100) by (unfold Qle; simpl; lia).
    rewrite Z.min_r by lia.
    rewrite Q.max_r by (unfold Qle; simpl; lia).
    rewrite Z.max_r by lia. unfold Qeq; simpl; lia.
Qed.

(** C7. For every 32-bit draw [h], [generateCrashPoint h] is a multiple of
    one hundredth between 1.01 and 100.00: it is [k/100] for the integer
    [k] obtained by clamping [floor((100*2^32 - h) / (2^32 - h))] to
    [101 .. 10000]. *)
Theorem generateCrashPoint_range (h : Z) :
  (0 <= h < 2 ^ 32)%Z ->
  let k := Z.max 101 (Z.min ((100 * 2 ^ 32 - h) / (2 ^ 32 - h)) 10000) in
  generateCrashPoint h == k # 100 /\
  (101 <= k <= 10000)%Z /\
  101 # 100 <= generateCrashPoint h /\ generateCrashPoint h <= 100.
Proof.
  intros Hh k.
  assert (Heq : generateCrashPoint h == k # 100).
  { unfold generateCrashPoint, Math_floor.
    rewrite raw_crash_cents by exact Hh. apply cents_clamp. }
  assert (Hk : (101 <= k <= 10000)%Z) by (unfold k; lia).
  split; [exact Heq|]. split; [exact Hk|].
  rewrite Heq. unfold Qle; simpl. lia.
Qed.

Lemma generateCrashPoint_range_witness :
  generateCrashPoint 2147483648 == 199 # 100 /\
  101 # 100 <= generateCrashPoint 2147483648 /\
  generateCrashPoint 2147483648 <= 100.
Proof.
  destruct (generateCrashPoint_range 2147483648) as (H1 & _ & H3 & H4).
  - lia.
  - split; [|split]; [|exact H3|exact H4].
    rewrite H1. vm_compute. reflexivity.
Defined.

(** ** Basic facts about the embedding *)


Lemma Qltb_lt (a b : Q) : Qltb a b = true <-> a < b.
Proof.
  unfold Qltb. destruct (Qlt_le_dec a b) as [Hlt|Hle].
  - tauto.
  - split; [discriminate|]. intros Hlt.
    exfalso. exact (Qlt_not_le _ _ Hlt Hle).
Qed.

Lemma Qltb_ge (a b : Q) : Qltb a b = false <-> b <= a.
Proof.
  unfold Qltb. destruct (Qlt_le_dec a b) as [Hlt|Hle].
  - split; [discriminate|]. intros Hle.
    exfalso. exact (Qlt_not_le _ _ Hlt Hle).
  - tauto.
Qed.

Lemma Qgeb_le (a b : Q) : Qgeb a b = true <-> b <= a.
Proof. unfold Qgeb. apply Qle_bool_iff. Qed.

Section Objects.
Context {A : Type}.
Implicit Types (o : list (string * A)) (k : string) (v : A).

Lemma obj_get_set_eq k v o : obj_get k (obj_set k v o) = Some v.
Proof.
  induction o as [|[k' v'] o IH]; simpl.
  - now rewrite String.eqb_refl.
  - destruct (String.eqb k' k) eqn:E; simpl.
    + now rewrite String.eqb_refl.
    + now rewrite E.
Qed.

Lemma obj_get_set_ne k k' v o :
  k <> k' -> obj_get k' (obj_set k v o) = obj_get k' o.
Proof.
  intros Hne. induction o as [|[k0 v0] o IH]; simpl.
  - destruct (String.eqb_spec k k'); [contradiction|reflexivity].
  - destruct (String.eqb_spec k0 k) as [->|Hk]; simpl.
    + destruct (String.eqb_spec k k'); [contradiction|reflexivity].
    + destruct (String.eqb k0 k'); [reflexivity|exact IH].
Qed.

Lemma obj_get_delete k o : obj_get k (obj_delete k o) = None.
Proof.
  unfold obj_delete. induction o as [|[k' v'] o IH]; simpl.
  - reflexivity.
  - destruct (String.eqb k' k) eqn:E; simpl.
    + exact IH.
    + now rewrite E.
Qed.

Lemma obj_delete_keys k o : ~ In k (List.map fst (obj_delete k o)).
Proof.
  unfold obj_delete. induction o as [|[k' v'] o IH]; simpl.
  - tauto.
  - destruct (String.eqb_spec k' k) as [->|Hk]; simpl.
    + exact IH.
    + intros [H|H]; [congruence|exact (IH H)].
Qed.
End Objects.

(** ** /api/place-bet: rejected amounts *)

(** C8. A bet whose amount is below 10, or above the balance of the
    account, is answered with a failure; the server state (balances,
    counters, players of every game) is unchanged and nothing is
    emitted.  When the account exists and the game is running the failure
    is 'Недостаточно средств' if the balance is too low and
    'Минимальная ставка 10' otherwise. *)
Theorem place_bet_rejects_invalid_amount
    (s : server) (name gameId : string) (amount : Q)
    (autoCashout : option Q) (now : Z) (betId : string) :
  (amount < 10 \/
   exists u, users s !! name = Some u /\ balance u < amount) ->
  exists status err,
    api_place_bet name gameId amount autoCashout now betId s
    = (Failure status err, s, []) /\
    forall u g,
      users s !! name = Some u ->
      obj_get gameId (activeGames s) = Some g ->
      isRunning g = true ->
      status = 400%Z /\
      err = if Qltb (balance u) amount then InsufficientFunds
            else MinimumBet.
Proof.
  intros Hbad. unfold api_place_bet. unfold_M.
  destruct (users s !! name) as [u|] eqn:Hu;
    [|eexists _, _; split; [reflexivity|discriminate]].
  destruct (obj_get gameId (activeGames s)) as [g|];
    [|eexists _, _; split; [reflexivity|discriminate]].
  destruct (isRunning g) eqn:Hrun; simpl.
  2:{ eexists _, _; split; [reflexivity|].
      intros u' g' _ Hg' Hrun'. congruence. }
  destruct (Qltb (balance u) amount) eqn:Hbal.
  { eexists _, _; split; [reflexivity|].
    intros u' g' Hu' _ _. inversion Hu'; subst u'. now rewrite Hbal. }
  destruct (Qltb amount 10) eqn:Hmin.
  { eexists _, _; split; [reflexivity|].
    intros u' g' Hu' _ _. inversion Hu'; subst u'. now rewrite Hbal. }
  exfalso. apply Qltb_ge in Hbal, Hmin.
  destruct Hbad as [Hlt|(u' & Hu' & Hlt)].
  - exact (Qlt_not_le _ _ Hlt Hmin).
  - inversion Hu'; subst u'. exact (Qlt_not_le _ _ Hlt Hbal).
Qed.

Lemma place_bet_rejects_invalid_amount_witness :
  let s := state_of (run (alice_joins draw_2_00) initial) in
  exists status err,
    api_place_bet "alice" "g1" 5 None 1500 "b1" s
    = (Failure status err, s, []) /\
    forall u g,
      users s !! "alice" = Some u ->
      obj_get "g1" (activeGames s) = Some g ->
      isRunning g = true ->
      status = 400%Z /\
      err = if Qltb (balance u) 5 then InsufficientFunds else MinimumBet.
Proof.
  intros s.
  apply (place_bet_rejects_invalid_amount s "alice" "g1" 5 None 1500 "b1").
  left. reflexivity.
Defined.

(** ** GET /api/user/:username *)

(** C10. The answer for a registered account has no [password] key, and it
    is the same whatever password is stored for the account. *)
Theorem api_user_hides_password (s : server) (name : string) (u : user) :
  users s !! name = Some u ->
  exists userData,
    api_user name s = (UserData userData, s, []) /\
    obj_get "password" userData = None /\
    ~ In "password"%string (List.map fst userData) /\
    forall pw,
      result_of
        (api_user name (set_users (insert name (with_password pw u)) s))
      = UserData userData.
Proof.
  intros Hu. exists (obj_delete "password" (user_object u)).
  split; [|split; [|split]].
  - unfold api_user. unfold_M. now rewrite Hu.
  - apply obj_get_delete.
  - apply obj_delete_keys.
  - intros pw. unfold api_user. unfold_M. simpl.
    now rewrite lookup_insert_eq.
Qed.

Lemma api_user_hides_password_witness :
  let s := state_of (run (alice_joins draw_2_00) initial) in
  exists userData,
    api_user "alice" s = (UserData userData, s, []) /\
    obj_get "password" userData = None /\
    ~ In "password"%string (List.map fst userData) /\
    forall pw,
      result_of
        (api_user "alice"
           (set_users
              (insert "alice"
                 (with_password pw
                    {| user_id := "u1"; username := "alice";
                       password := "secret"; balance := 1000;
                       gamesPlayed := 0; gamesWon := 0; totalProfit := 0;
                       createdAt := 0 |})) s))
      = UserData userData.
Proof.
  intros s. apply api_user_hides_password. vm_compute. reflexivity.
Defined.

(** ** Who sees the crash point *)

Lemma find_running_set (k : string) (g : game) (o : list (string * game)) :
  Forall (fun kg => isRunning (snd kg) = false) o ->
  isRunning g = true ->
  List.find isRunning (obj_values (obj_set k g o)) = Some g.
Proof.
  intros Hall Hg. induction Hall as [|[k' g'] o Hg' Hall IH]; simpl.
  - now rewrite Hg.
  - destruct (String.eqb k' k); simpl.
    + now rewrite Hg.
    + simpl in Hg'. rewrite Hg'. exact IH.
Qed.

Lemma all_stopped_not_running (s : server) :
  all_stopped s -> gameState_isRunning s = false.
Proof.
  unfold all_stopped, gameState_isRunning, current.
  destruct (gameState s) as [k|]; [|reflexivity].
  induction 1 as [|[k' g'] o Hg' Hall IH]; simpl.
  - reflexivity.
  - destruct (String.eqb k' k); [exact Hg'|exact IH].
Qed.

(** The crash point is in the [game_start] event of its round, and in the
    [game_state] snapshot sent to a socket that joins while the round is
    live: two rounds with the same identifier and start time but different
    draws are told apart by what the server emits. *)
Lemma crash_point_revealed :
  let r1 := startNewGame "g1" draw_2_00 1000 initial in
  let r2 := startNewGame "g1" 0 1000 initial in
  output_of r1 = [game_start "g1" (200 # 100) 1000] /\
  output_of r2 = [game_start "g1" (101 # 100) 1000] /\
  output_of r1 <> output_of r2 /\
  exists g,
    output_of (on_user_join "sock1" "bob" 0 1200 (state_of r1))
    = [game_state "sock1" g; online_update 1 ["bob"%string]] /\
    isRunning g = true /\
    crashPoint g = 200 # 100.
Proof.
  cbv zeta. split; [|split; [|split]].
  - vm_compute. reflexivity.
  - vm_compute. reflexivity.
  - vm_compute. discriminate.
  - eexists. split; [vm_compute; reflexivity|].
    split; reflexivity.
Qed.

(** C3 (amended). When no round is live, [startNewGame] emits exactly one
    event, [game_start], whose payload is the identifier, the crash point
    and the start time of the new round; and a socket that joins while
    that round is live is sent [game_state] with the round object, whose
    [crashPoint] field is that crash point. *)
Theorem game_start_carries_crash_point
    (s : server) (gameId : string) (h : Z) (now : Z) :
  all_stopped s ->
  let r := startNewGame gameId h now s in
  output_of r = [game_start gameId (generateCrashPoint h) now] /\
  forall socketId name bal now',
    exists n names,
      output_of (on_user_join socketId name bal now' (state_of r))
      = [game_state socketId (new_game gameId (generateCrashPoint h) now);
         online_update n names].
Proof.
  intros Hall r. subst r. unfold startNewGame. unfold_M.
  rewrite (all_stopped_not_running s Hall). simpl.
  split; [reflexivity|].
  intros socketId name bal now'.
  unfold on_user_join. unfold_M. simpl.
  rewrite find_running_set by (exact Hall || reflexivity).
  simpl. eexists _, _. reflexivity.
Qed.

Lemma game_start_carries_crash_point_witness :
  let r := startNewGame "g1" draw_2_00 1000 initial in
  output_of r = [game_start "g1" (generateCrashPoint draw_2_00) 1000] /\
  forall socketId name bal now',
    exists n names,
      output_of (on_user_join socketId name bal now' (state_of r))
      = [game_state socketId
           (new_game "g1" (generateCrashPoint draw_2_00) 1000);
         online_update n names].
Proof.
  apply (game_start_carries_crash_point initial "g1" draw_2_00 1000).
  unfold all_stopped. simpl. constructor.
Defined.

(** ** /api/place-bet: bets of an account that already has one *)

(** An account that holds an open bet in the running round places a second
    one: both requests succeed and the round has two open bets of the
    account. *)
Lemma duplicate_bet_accepted :
  let r := run (alice_joins draw_2_00 ++
                [ PlaceBet "alice" "g1" 10 None 1100 "b1";
                  PlaceBet "alice" "g1" 10 None 1200 "b2" ]) initial in
  result_of r = [ Some (Registered "u1" "alice" 1000); None;
                  Some (BetPlaced 990 "b1"); Some (BetPlaced 980 "b2") ] /\
  length (open_bets "alice" (players_of "g1" (state_of r))) = 2%nat.
Proof. cbv zeta. split; vm_compute; reflexivity. Qed.

(** C4 (amended). [/api/place-bet] has no check on the bets the account
    already holds: whenever the account exists, the game is running and
    the amount is at least 10 and at most the balance, the bet is accepted
    and one more open bet of the account is appended to the round,
    whatever bets are there. *)
Theorem place_bet_ignores_open_bets
    (s : server) (name gameId : string) (amount : Q)
    (autoCashout : option Q) (now : Z) (betId : string)
    (u : user) (g : game) :
  users s !! name = Some u ->
  obj_get gameId (activeGames s) = Some g ->
  isRunning g = true ->
  amount <= balance u ->
  10 <= amount ->
  let r := api_place_bet name gameId amount autoCashout now betId s in
  result_of r = BetPlaced (balance u - amount) betId /\
  exists p,
    players_of gameId (state_of r) = players g ++ [p] /\
    player_username p = username u /\
    bet p = amount /\
    cashedOut p = false /\
    open_bets (username u) (players_of gameId (state_of r))
    = open_bets (username u) (players g) ++ [p].
Proof.
  intros Hu Hg Hrun Hbal Hmin r. subst r.
  unfold api_place_bet. unfold_M. rewrite Hu, Hg, Hrun. simpl.
  apply Qltb_ge in Hbal, Hmin. rewrite Hbal, Hmin. simpl.
  split; [reflexivity|].
  unfold players_of. simpl. rewrite obj_get_set_eq. simpl.
  eexists. split; [reflexivity|]. simpl.
  repeat split.
  unfold open_bets. rewrite filter_app. f_equal.
  rewrite filter_cons_True by (split; reflexivity).
  reflexivity.
Qed.

Lemma place_bet_ignores_open_bets_witness :
  let s := state_of (run (alice_joins draw_2_00 ++
                          [ PlaceBet "alice" "g1" 10 None 1100 "b1" ])
                       initial) in
  let r := api_place_bet "alice" "g1" 10 None 1200 "b2" s in
  length (open_bets "alice" (players_of "g1" s)) = 1%nat /\
  result_of r = BetPlaced (990 - 10) "b2" /\
  length (open_bets "alice" (players_of "g1" (state_of r))) = 2%nat.
Proof.
  intros s r.
  destruct (place_bet_ignores_open_bets s "alice" "g1" 10 None 1200 "b2"
              {| user_id := "u1"; username := "alice"; password := "secret";
                 balance := 990; gamesPlayed := 1; gamesWon := 0;
                 totalProfit := 0; createdAt := 0 |}
              {| game_id := "g1"; isRunning := true; multiplier := 1;
                 crashPoint := 200 # 100; startTime := 1000;
                 players :=
                   [ {| player_id := "u1"; player_username := "alice";
                        bet := 10; cashOutMultiplier := None;
                        cashedOut := false; won := false; profit := 0;
                        joinedAt := 1100 |} ];
                 history := []; winner := None; endTime := None |})
    as (Hres & p & Hp & _ & _ & _ & Hopen).
  - vm_compute. reflexivity.
  - vm_compute. reflexivity.
  - reflexivity.
  - vm_compute. discriminate.
  - vm_compute. discriminate.
  - split; [vm_compute; reflexivity|].
    split; [exact Hres|].
    fold r in Hopen. simpl in Hopen. rewrite Hopen.
    vm_compute. reflexivity.
Defined.

(** ** /api/cash-out: a bet is cashed out once *)

(** An account with two open bets of 10 in the round cashes out twice at
    multiplier 1.50: both requests succeed and the balance is credited
    twice, 980 becoming 995 and then 1010. *)
Lemma second_cash_out_succeeds :
  let r := run (alice_joins draw_2_00 ++
                [ PlaceBet "alice" "g1" 10 None 1100 "b1";
                  PlaceBet "alice" "g1" 10 None 1200 "b2";
                  Tick "g1" 11000 11000;
                  CashOut "alice" "g1";
                  CashOut "alice" "g1" ]) initial in
  exists a1 b1 a2 b2,
    result_of r = [ Some (Registered "u1" "alice" 1000); None;
                    Some (BetPlaced 990 "b1"); Some (BetPlaced 980 "b2");
                    None;
                    Some (CashedOut 150 a1 b1); Some (CashedOut 150 a2 b2) ]
    /\ a1 == 15 /\ b1 == 995 /\ a2 == 15 /\ b2 == 1010.
Proof.
  cbv zeta. eexists _, _, _, _.
  split; [vm_compute; reflexivity|].
  repeat split.
Qed.

Lemma open_bets_insert (name : string) (ps : list player) (i : nat)
    (p p' : player) :
  ps !! i = Some p ->
  open_bet_of name p ->
  ~ open_bet_of name p' ->
  length (open_bets name ps) = S (length (open_bets name (<[i:=p']> ps))).
Proof.
  intros Hi Hp Hp'. unfold open_bets.
  rewrite insert_take_drop by (eapply lookup_lt_Some; exact Hi).
  rewrite <- (take_drop_middle ps i p Hi) at 1.
  rewrite !filter_app, !length_app.
  rewrite filter_cons_True by exact Hp.
  rewrite filter_cons_False by exact Hp'.
  simpl. lia.
Qed.

Lemma open_bets_none (name : string) (ps : list player) :
  length (open_bets name ps) = 0%nat ->
  list_find (open_bet_of name) ps = None.
Proof.
  intros Hlen. apply list_find_None. apply Forall_forall.
  intros q Hq Hopen.
  apply length_zero_iff_nil in Hlen.
  exact (filter_nil_not_elem_of _ _ _ Hlen Hopen Hq).
Qed.

(** C6 (amended). A successful cash-out closes exactly one open bet of the
    account, leaves every bet that was already cashed out as it is, and
    credits the account once; and if that bet was the only open bet of the
    account in the game, the next cash-out of the account for the game
    fails with 'Ставка не найдена' and changes nothing. *)
Theorem cash_out_once
    (s s1 : server) (name gameId : string) (u : user) (g : game)
    (m : Z) (amount bal : Q) (out : list event) :
  users s !! name = Some u ->
  obj_get gameId (activeGames s) = Some g ->
  api_cash_out name gameId s = (CashedOut m amount bal, s1, out) ->
  length (open_bets name (players g))
  = S (length (open_bets name (players_of gameId s1))) /\
  (forall j q, players g !! j = Some q -> cashedOut q = true ->
               players_of gameId s1 !! j = Some q) /\
  (exists u1, users s1 !! name = Some u1 /\
              balance u1 = balance u + amount /\ bal = balance u1) /\
  (length (open_bets name (players g)) = 1%nat ->
   api_cash_out name gameId s1 = (Failure 400 BetNotFound, s1, [])).
Proof.
  intros Hu Hg Hco. unfold api_cash_out in Hco. unfold_M.
  rewrite Hu, Hg in Hco.
  destruct (isRunning g) eqn:Hrun; simpl in Hco; [|discriminate].
  destruct (list_find (open_bet_of name) (players g)) as [[i p]|] eqn:Hfind;
    [|discriminate].
  simpl in Hco. inversion Hco; subst; clear Hco.
  apply list_find_Some in Hfind as (Hi & Hp & Hfirst).
  set (p' := {| player_id := player_id p;
                player_username := player_username p; bet := bet p;
                cashOutMultiplier := Some (multiplier g);
                cashedOut := true; won := true;
                profit := bet p * multiplier g - bet p;
                joinedAt := joinedAt p |}).
  assert (Hp' : ~ open_bet_of name p') by (intros [_ H]; discriminate).
  assert (Hlen := open_bets_insert name (players g) i p p' Hi Hp Hp').
  unfold players_of. simpl. rewrite obj_get_set_eq. simpl. fold p'.
  split; [exact Hlen|]. split; [|split].
  - intros j q Hj Hq. destruct (decide (i = j)) as [->|Hne].
    + destruct Hp as [_ Hopen]. congruence.
    + rewrite list_lookup_insert_ne by exact Hne. exact Hj.
  - eexists. rewrite lookup_insert_eq. split; [reflexivity|].
    split; reflexivity.
  - intros Hone. unfold api_cash_out. unfold_M. simpl.
    rewrite lookup_insert_eq, obj_get_set_eq. simpl.
    rewrite open_bets_none by lia. reflexivity.
Qed.

Lemma cash_out_once_witness :
  let s := state_of (run (alice_joins draw_2_00 ++
                          [ PlaceBet "alice" "g1" 10 None 1100 "b1";
                            Tick "g1" 11000 11000 ]) initial) in
  let r := api_cash_out "alice" "g1" s in
  length (open_bets "alice" (players_of "g1" s)) = 1%nat /\
  length (open_bets "alice" (players_of "g1" (state_of r))) = 0%nat /\
  api_cash_out "alice" "g1" (state_of r)
  = (Failure 400 BetNotFound, state_of r, []).
Proof.
  intros s r.
  assert (Hu : exists u, users s !! "alice" = Some u)
    by (vm_compute; eexists; reflexivity).
  assert (Hg : exists g, obj_get "g1" (activeGames s) = Some g)
    by (vm_compute; eexists; reflexivity).
  assert (Hr : exists m a b,
             r = (CashedOut m a b, state_of r, output_of r))
    by (vm_compute; eexists _, _, _; reflexivity).
  assert (Hone : length (open_bets "alice" (players_of "g1" s)) = 1%nat)
    by (vm_compute; reflexivity).
  destruct Hu as [u Hu], Hg as [g Hg], Hr as (m & a & b & Hr).
  destruct (cash_out_once s (state_of r) "alice" "g1" u g m a b
              (output_of r) Hu Hg Hr) as (Hlen & _ & _ & Hsecond).
  unfold players_of in Hone at 1. rewrite Hg in Hone.
  split; [unfold players_of at 1; rewrite Hg; exact Hone|].
  split; [lia|].
  exact (Hsecond Hone).
Defined.

(** ** The tick of a running round *)

(** [endGame] changes neither the stake, nor the stored threshold, nor the
    cashed-out flag of a bet. *)
Lemma settle_keeps_bet (m : Q) (p : player) :
  player_username (settle m p) = player_username p /\
  bet (settle m p) = bet p /\
  cashOutMultiplier (settle m p) = cashOutMultiplier p /\
  cashedOut (settle m p) = cashedOut p.
Proof.
  unfold settle.
  destruct (cashedOut p && Qltb (to_number (cashOutMultiplier p)) m);
    [repeat split|].
  destruct (negb (cashedOut p)); repeat split.
Qed.

(** What [endGame] does: nothing when the game is unknown or stopped;
    otherwise it stores the finished game, archives it and emits
    [game_end]. *)
Lemma endGame_spec (gameId : string) (now : Z) (s : server) :
  endGame gameId now s = (tt, s, []) \/
  exists g,
    obj_get gameId (activeGames s) = Some g /\
    isRunning g = true /\
    endGame gameId now s
    = (tt,
       set_gameHistory (history_push (archive (finished g now)))
         (set_activeGames (obj_set gameId (finished g now)) s),
       [game_end gameId (toFixed 2 (multiplier g)) (crashPoint g)
          (players (finished g now))
          (length (List.filter won (players (finished g now))))]).
Proof.
  unfold endGame. unfold_M.
  destruct (obj_get gameId (activeGames s)) as [g|] eqn:Hg; [|by left].
  destruct (isRunning g) eqn:Hrun; simpl; [|by left].
  right. exists g. split; [reflexivity|]. split; [exact Hrun|reflexivity].
Qed.

Lemma players_of_set (k k' : string) (g g' : game) (s : server) :
  obj_get k (activeGames s) = Some g ->
  List.map bet_status (players g') = List.map bet_status (players g) ->
  List.map bet_status (players_of k' (set_activeGames (obj_set k g') s))
  = List.map bet_status (players_of k' s).
Proof.
  intros Hg Hsame. unfold players_of. simpl.
  destruct (decide (k = k')) as [<-|Hne].
  - now rewrite obj_get_set_eq, Hg.
  - now rewrite obj_get_set_ne.
Qed.



Lemma update_current_keeps_bets (m : Q) (s : server) :
  users (update_current (set_multiplier m) s) = users s /\
  forall k,
    List.map bet_status (players_of k (update_current (set_multiplier m) s))
    = List.map bet_status (players_of k s).
Proof.
  unfold update_current.
  destruct (gameState s) as [k0|] eqn:Hk0; [|by split].
  destruct (current s) as [g|] eqn:Hcur; [|by split].
  split; [reflexivity|]. intros k.
  apply (players_of_set k0 k g); [|reflexivity].
  unfold current in Hcur. now rewrite Hk0 in Hcur.
Qed.


(** The tick, case by case. *)
Lemma tick_spec (gameId : string) (now endNow : Z) (s : server) :
  tick gameId now endNow s
  = match current s with
    | Some g =>
        if isRunning g then
          let m := tick_multiplier g now in
          let s1 := update_current (set_multiplier m) s in
          if Qgeb m (crashPoint g) then endGame gameId endNow s1
          else (tt, s1,
                [game_update gameId (toFixed 2 m)
                   (toFixed 1 (inject_Z (now - startTime g) / 1000))])
        else (tt, s, [])
    | None => (tt, s, [])
    end.
Proof.
  unfold tick. unfold_M.
  destruct (current s) as [g|]; [|reflexivity].
  destruct (isRunning g); simpl; [|reflexivity].
  fold (tick_multiplier g now).
  destruct (Qgeb (tick_multiplier g now) (crashPoint g)); [|reflexivity].
  destruct (endGame gameId endNow _) as [[[] s'] out]. reflexivity.
Qed.


(** ** The transition to crashed *)

Lemma endGame_running (gameId : string) (now : Z) (s : server) (g : game) :
  obj_get gameId (activeGames s) = Some g ->
  isRunning g = true ->
  endGame gameId now s
  = (tt,
     set_gameHistory (history_push (archive (finished g now)))
       (set_activeGames (obj_set gameId (finished g now)) s),
     [game_end gameId (toFixed 2 (multiplier g)) (crashPoint g)
        (players (finished g now))
        (length (List.filter won (players (finished g now))))]).
Proof.
  intros Hg Hrun. unfold endGame. unfold_M. now rewrite Hg, Hrun.
Qed.




(** ** Settlement *)

(** A bet that is open when the game ends is marked lost, with profit
    minus the stake. *)
Lemma settle_open (m : Q) (p : player) :
  cashedOut p = false ->
  won (settle m p) = false /\ profit (settle m p) = - bet p /\
  cashedOut (settle m p) = false.
Proof.
  intros Hopen. unfold settle. rewrite Hopen. simpl.
  split; [reflexivity|]. split; reflexivity.
Qed.

(** A bet cashed out at [x] below the final multiplier [m] gets the payout
    [bet * x] as its profit. *)
Lemma settle_cashed_out_below (m x : Q) (p : player) :
  cashedOut p = true ->
  cashOutMultiplier p = Some x ->
  x < m ->
  won (settle m p) = true /\ profit (settle m p) = bet p * x.
Proof.
  intros Hco Hx Hlt. unfold settle. rewrite Hco, Hx. simpl.
  apply Qltb_lt in Hlt. rewrite Hlt. split; reflexivity.
Qed.

(** A bet cashed out at the final multiplier itself is left as the
    cash-out wrote it. *)
Lemma settle_cashed_out_at (m x : Q) (p : player) :
  cashedOut p = true ->
  cashOutMultiplier p = Some x ->
  m <= x ->
  settle m p = p.
Proof.
  intros Hco Hx Hle. unfold settle. rewrite Hco, Hx. simpl.
  apply Qltb_ge in Hle. now rewrite Hle.
Qed.

(** C1. A bet of 100 cashed out at 1.50 in a round that crashes at 2.00:
    the cash-out credits 150 and leaves the bet with profit 50; the
    settlement moves no money and replaces the profit by 150, which is the
    payout [stake * x] and not [stake * x - stake]. *)
Theorem settlement_overwrites_profit :
  let played := alice_joins draw_2_00 ++
                [ PlaceBet "alice" "g1" 100 None 1000 "b1";
                  Tick "g1" 11000 11000;
                  CashOut "alice" "g1" ] in
  let before := state_of (run played initial) in
  let after := state_of (run (played ++ [ Tick "g1" 21000 21000 ]) initial) in
  exists p p' x u u',
    players_of "g1" before = [p] /\
    players_of "g1" after = [p'] /\
    gameState_isRunning before = true /\
    gameState_isRunning after = false /\
    bet_status p = ("alice"%string, 100, Some x, true) /\
    bet_status p' = bet_status p /\
    x == 15 # 10 /\
    profit p == 50 /\
    profit p' == 150 /\
    ~ profit p' == bet p' * x - bet p' /\
    users before !! "alice" = Some u /\
    users after !! "alice" = Some u' /\
    balance u == 1050 /\ balance u' = balance u.
Proof.
  cbv zeta. eexists _, _, _, _, _.
  split; [vm_compute; reflexivity|].
  split; [vm_compute; reflexivity|].
  split; [vm_compute; reflexivity|].
  split; [vm_compute; reflexivity|].
  split; [reflexivity|]. split; [reflexivity|].
  split; [reflexivity|]. split; [reflexivity|]. split; [reflexivity|].
  split; [discriminate|].
  split; [vm_compute; reflexivity|].
  split; [vm_compute; reflexivity|].
  split; reflexivity.
Qed.

(** ** The bounded history *)

Section LastN.
Context {A : Type}.
Implicit Types (l : list A) (x : A).

Lemma last_n_length (n : nat) l :
  length (last_n n l) = Nat.min (length l) n.
Proof. unfold last_n. rewrite length_drop. lia. Qed.

Lemma last_n_all (n : nat) l : (length l <= n)%nat -> last_n n l = l.
Proof.
  intros Hle. unfold last_n.
  now replace (length l - n)%nat with 0%nat by lia.
Qed.

(** Cutting to the last [n] after each push keeps the last [n] of
    everything pushed. *)
Lemma last_n_push (n : nat) l x :
  last_n n (last_n n l ++ [x]) = last_n n (l ++ [x]).
Proof.
  destruct (Nat.le_gt_cases (length l) n) as [Hle|Hgt].
  - now rewrite (last_n_all n l Hle).
  - unfold last_n at 1 3.
    rewrite !length_app, last_n_length. simpl.
    replace (Nat.min (length l) n + 1 - n)%nat with 1%nat by lia.
    unfold last_n.
    destruct n as [|n].
    + rewrite Nat.sub_0_r, drop_all. simpl. symmetry.
      apply drop_ge. rewrite length_app. simpl. lia.
    + rewrite !drop_app_le by (rewrite ?length_drop; lia).
      rewrite drop_drop. f_equal. f_equal. lia.
Qed.
End LastN.

Lemma history_push_last (a : archived) (h : list archived) :
  history_push a h = last_n 100 (h ++ [a]).
Proof.
  unfold history_push.
  destruct (Nat.ltb_spec 100 (length (h ++ [a]))) as [Hlt|Hle].
  - reflexivity.
  - now rewrite last_n_all.
Qed.

Lemma ended_app (out1 out2 : list event) :
  ended (out1 ++ out2) = ended out1 ++ ended out2.
Proof. unfold ended. apply List.flat_map_app. Qed.

Lemma keyed_get (o : list (string * game)) (k : string) (g : game) :
  Forall (fun kg => game_id (snd kg) = fst kg) o ->
  obj_get k o = Some g -> game_id g = k.
Proof.
  induction 1 as [|[k' g'] o Hk Hall IH]; simpl; [discriminate|].
  destruct (String.eqb_spec k' k) as [<-|Hne]; [|exact IH].
  intros [= <-]. exact Hk.
Qed.

Lemma keyed_set (o : list (string * game)) (k : string) (g : game) :
  Forall (fun kg => game_id (snd kg) = fst kg) o ->
  game_id g = k ->
  Forall (fun kg => game_id (snd kg) = fst kg) (obj_set k g o).
Proof.
  intros Hall Hg. induction Hall as [|[k' g'] o Hk Hall IH]; simpl.
  - constructor; [exact Hg|constructor].
  - destruct (String.eqb k' k); constructor; assumption.
Qed.

Lemma endGame_history (gameId : string) (now : Z) (s : server) :
  keyed s ->
  let r := endGame gameId now s in
  keyed (state_of r) /\ history_step s (state_of r) (output_of r).
Proof.
  intros Hk r. subst r.
  destruct (endGame_spec gameId now s) as [->|(g & Hg & Hrun & ->)].
  - split; [exact Hk|]. left. split; reflexivity.
  - pose proof (keyed_get _ _ _ Hk Hg) as Hid. split.
    + apply keyed_set; [exact Hk|exact Hid].
    + right. exists (archive (finished g now)). unfold_M. simpl.
      split; [reflexivity|]. unfold entry_key. simpl.
      now rewrite Hid.
Qed.

Lemma history_step_same (s s' s'' : server) (out : list event) :
  gameHistory s' = gameHistory s ->
  history_step s' s'' out -> history_step s s'' out.
Proof. unfold history_step. intros ->. tauto. Qed.

Lemma update_current_history (f : game -> game) (s : server) :
  gameHistory (update_current f s) = gameHistory s.
Proof.
  unfold update_current.
  destruct (gameState s); [|reflexivity].
  destruct (current s); reflexivity.
Qed.

Lemma update_current_keyed (m : Q) (s : server) :
  keyed s -> keyed (update_current (set_multiplier m) s).
Proof.
  intros Hk. unfold update_current, current.
  destruct (gameState s) as [k|]; [|exact Hk].
  destruct (obj_get k (activeGames s)) as [g|] eqn:Hg; [|exact Hk].
  apply keyed_set; [exact Hk|]. simpl. exact (keyed_get _ _ _ Hk Hg).
Qed.

Lemma handle_history (i : input) (s : server) :
  keyed s ->
  let r := handle i s in
  keyed (state_of r) /\ history_step s (state_of r) (output_of r).
Proof.
  intros Hk r. subst r. destruct i; unfold handle.
  - unfold api_register. unfold_M.
    destruct (String.eqb name "" || String.eqb pass ""); simpl;
      [unchanged|].
    destruct (users s !! name); unchanged.
  - unfold api_place_bet. unfold_M.
    destruct (users s !! name); [|unchanged].
    destruct (obj_get gameId (activeGames s)) as [g|] eqn:Hg; [|unchanged].
    destruct (isRunning g); simpl; [|unchanged].
    destruct (Qltb _ amount); [unchanged|].
    destruct (Qltb amount 10); [unchanged|].
    split; [|left; split; reflexivity].
    apply keyed_set; [exact Hk|]. simpl. exact (keyed_get _ _ _ Hk Hg).
  - unfold api_cash_out. unfold_M.
    destruct (users s !! name); [|unchanged].
    destruct (obj_get gameId (activeGames s)) as [g|] eqn:Hg; [|unchanged].
    destruct (isRunning g); simpl; [|unchanged].
    destruct (list_find _ _) as [[j p]|]; [|unchanged].
    split; [|left; split; reflexivity].
    apply keyed_set; [exact Hk|]. simpl. exact (keyed_get _ _ _ Hk Hg).
  - unfold api_user. unfold_M.
    destruct (users s !! name); unchanged.
  - unfold on_user_join. unfold_M. simpl.
    destruct (List.find _ _); unchanged.
  - unfold on_disconnect. unfold_M. simpl. unchanged.
  - unfold startNewGame. unfold_M.
    destruct (gameState_isRunning s); [unchanged|].
    split; [|left; split; reflexivity].
    apply keyed_set; [exact Hk|reflexivity].
  - unfold mbind, M_bind, mret, M_ret. rewrite tick_spec.
    destruct (current s) as [g|]; [|unchanged].
    destruct (isRunning g); [|unchanged].
    cbv zeta.
    destruct (Qgeb _ _).
    + pose proof (endGame_history gameId endNow _
        (update_current_keyed (tick_multiplier g now) s Hk)) as [Hk' H].
      apply (history_step_same s) in H;
        [|apply update_current_history].
      unfold state_of, output_of in *.
      destruct (endGame gameId endNow _) as [[x s'] out].
      simpl in *. rewrite app_nil_r. split; assumption.
    + split; [apply update_current_keyed; exact Hk|].
      left. split; [apply update_current_history|reflexivity].
  - unfold ceiling. unfold_M.
    destruct (gameState_isRunning s); [|unchanged].
    pose proof (endGame_history gameId now s Hk) as [Hk' H].
    unfold state_of, output_of in *.
    destruct (endGame gameId now s) as [[x s'] out].
    simpl in *. rewrite app_nil_r. split; assumption.
Qed.

Lemma run_history (ins : list input) :
  forall (s : server) (prev : list (string * Z * Q * nat)),
    keyed s ->
    List.map entry_key (gameHistory s) = last_n 100 prev ->
    let r := run ins s in
    List.map entry_key (gameHistory (state_of r))
    = last_n 100 (prev ++ ended (output_of r)).
Proof.
  induction ins as [|i ins IH]; intros s prev Hk Hinv; simpl.
  - unfold_M. simpl. now rewrite app_nil_r.
  - pose proof (handle_history i s Hk) as [Hk1 Hstep].
    unfold mbind, M_bind, mret, M_ret.
    unfold state_of, output_of in *.
    destruct (handle i s) as [[x s1] out1]. simpl in Hstep, Hk1.
    assert (Hinv1 : List.map entry_key (gameHistory s1)
                    = last_n 100 (prev ++ ended out1)).
    { destruct Hstep as [[-> ->]|(a & -> & ->)].
      - now rewrite app_nil_r.
      - rewrite history_push_last. unfold last_n at 1.
        rewrite <- (List.length_map entry_key), <- List.skipn_map.
        rewrite List.map_app, Hinv. simpl. apply last_n_push. }
    specialize (IH s1 (prev ++ ended out1) Hk1 Hinv1). cbv zeta in IH.
    destruct (run ins s1) as [[rs s2] out2]. simpl in *.
    now rewrite app_nil_r, ended_app, app_assoc.
Qed.

(** C9. Whatever the server is given to do from its start, [gameHistory]
    holds the last 100 of the rounds it has reported as completed, oldest
    first: identifier, final multiplier, crash point and number of players
    of each; so it has [min n 100] entries after [n] completed rounds. *)
Theorem history_bounded (ins : list input) :
  let r := run ins initial in
  let completed := ended (output_of r) in
  List.map entry_key (gameHistory (state_of r))
  = drop (length completed - 100) completed /\
  length (gameHistory (state_of r)) = Nat.min (length completed) 100.
Proof.
  intros r completed.
  assert (H : List.map entry_key (gameHistory (state_of r))
              = last_n 100 completed).
  { apply (run_history ins initial []); [constructor|reflexivity]. }
  split; [exact H|].
  rewrite <- (List.length_map entry_key), H. apply last_n_length.
Qed.

(** After 105 rounds the history has 100 entries: the rounds numbered 5 to
    104, the 5 oldest having been dropped. *)
Lemma history_after_105_rounds :
  let r := run (rounds 0 105 1000) initial in
  length (ended (output_of r)) = 105%nat /\
  length (gameHistory (state_of r)) = 100%nat /\
  List.map a_id (gameHistory (state_of r))
  = List.map round_id (List.seq 5 100) /\
  List.map entry_key (gameHistory (state_of r))
  = drop 5 (ended (output_of r)).
Proof.
  intros r.
  destruct (history_bounded (rounds 0 105 1000)) as [Hkeys Hlen].
  fold r in Hkeys, Hlen.
  assert (Hn : length (ended (output_of r)) = 105%nat)
    by (vm_compute; reflexivity).
  rewrite Hn in Hkeys, Hlen.
  split; [exact Hn|]. split; [exact Hlen|].
  split; [vm_compute; reflexivity|exact Hkeys].
Defined.

(** ** The handlers as transitions *)

Lemma endGame_transition (gameId : string) (now : Z) (s : server) :
  state_of (endGame gameId now s) = s \/
  transition s (state_of (endGame gameId now s)).
Proof.
  destruct (endGame_spec gameId now s) as [->|(g & Hg & Hrun & ->)].
  - left. reflexivity.
  - right. exact (t_end s gameId now g Hg Hrun).
Qed.

Lemma tick_transitions (gameId : string) (now endNow : Z) (s : server) :
  rtc transition s (state_of (tick gameId now endNow s)).
Proof.
  rewrite tick_spec.
  destruct (current s) as [g|] eqn:Hcur; [|apply rtc_refl].
  destruct (isRunning g) eqn:Hrun; [|apply rtc_refl].
  cbv zeta.
  pose proof (t_multiplier s (tick_multiplier g now) g Hcur Hrun) as Hm.
  destruct (Qgeb _ _).
  - destruct (endGame_transition gameId endNow
                (update_current (set_multiplier (tick_multiplier g now)) s))
      as [->|Hend].
    + apply rtc_once. exact Hm.
    + eapply rtc_l; [exact Hm|]. apply rtc_once. exact Hend.
  - apply rtc_once. exact Hm.
Qed.

(** Every handler is a sequence of at most two transitions. *)
Lemma handle_transitions (i : input) (s : server) :
  rtc transition s (state_of (handle i s)).
Proof.
  destruct i; unfold handle.
  - unfold api_register. unfold_M.
    destruct (String.eqb_spec name "") as [->|Hname]; simpl;
      [apply rtc_refl|].
    destruct (String.eqb_spec pass "") as [->|Hpass]; simpl;
      [apply rtc_refl|].
    destruct (users s !! name) eqn:Hu; simpl; [apply rtc_refl|].
    apply rtc_once. exact (t_register s name pass id now Hname Hpass Hu).
  - unfold api_place_bet. unfold_M.
    destruct (users s !! name) as [u|] eqn:Hu; [|apply rtc_refl].
    destruct (obj_get gameId (activeGames s)) as [g|] eqn:Hg;
      [|apply rtc_refl].
    destruct (negb (isRunning g)) eqn:Hrun; simpl; [apply rtc_refl|].
    apply negb_false_iff in Hrun.
    destruct (Qltb (balance u) amount) eqn:Hbal; [apply rtc_refl|].
    destruct (Qltb amount 10) eqn:Hmin; [apply rtc_refl|].
    apply Qltb_ge in Hbal, Hmin. apply rtc_once.
    exact (t_bet s name gameId amount autoCashout now u g
             Hu Hg Hrun Hbal Hmin).
  - unfold api_cash_out. unfold_M.
    destruct (users s !! name) as [u|] eqn:Hu; [|apply rtc_refl].
    destruct (obj_get gameId (activeGames s)) as [g|] eqn:Hg;
      [|apply rtc_refl].
    destruct (negb (isRunning g)) eqn:Hrun; simpl; [apply rtc_refl|].
    apply negb_false_iff in Hrun.
    destruct (list_find _ _) as [[j p]|] eqn:Hfind; [|apply rtc_refl].
    apply rtc_once. exact (t_cash s name gameId u g j p Hu Hg Hrun Hfind).
  - unfold api_user. unfold_M.
    destruct (users s !! name); apply rtc_refl.
  - unfold on_user_join. unfold_M. simpl.
    destruct (List.find _ _); apply rtc_once; apply t_join.
  - unfold on_disconnect. unfold_M. simpl. apply rtc_once. apply t_leave.
  - unfold startNewGame. unfold_M.
    destruct (gameState_isRunning s) eqn:Hrun; [apply rtc_refl|].
    apply rtc_once. exact (t_start s gameId h now Hrun).
  - pose proof (tick_transitions gameId now endNow s) as H.
    unfold_M. destruct (tick gameId now endNow s) as [[x s'] out].
    exact H.
  - unfold ceiling. unfold_M.
    destruct (gameState_isRunning s); [|apply rtc_refl].
    destruct (endGame_transition gameId now s) as [H|H];
      unfold state_of in H;
      destruct (endGame gameId now s) as [[x s'] out]; simpl in *.
    + subst s'. apply rtc_refl.
    + apply rtc_once. exact H.
Qed.

Lemma run_cons (i : input) (ins : list input) (s : server) :
  state_of (run (i :: ins) s) = state_of (run ins (state_of (handle i s))) /\
  output_of (run (i :: ins) s)
  = output_of (handle i s) ++ output_of (run ins (state_of (handle i s))).
Proof.
  simpl. unfold_M.
  destruct (handle i s) as [[x s1] out1]. simpl.
  destruct (run ins s1) as [[rs s2] out2]. simpl.
  now rewrite app_nil_r.
Qed.

Lemma run_transitions (ins : list input) :
  forall s, rtc transition s (state_of (run ins s)).
Proof.
  induction ins as [|i ins IH]; intros s.
  - apply rtc_refl.
  - destruct (run_cons i ins s) as [-> _].
    eapply rtc_trans; [apply handle_transitions|apply IH].
Qed.

(** What holds at the start and is kept by every transition holds in every
    state the server can reach. *)
Lemma reachable_ind (P : server -> Prop) :
  P initial ->
  (forall s s', P s -> transition s s' -> P s') ->
  forall s, reachable s -> P s.
Proof.
  intros Hinit Hstep s [ins ->].
  pose proof (run_transitions ins initial) as Hrtc.
  induction Hrtc as [|s0 s1 s2 H01 _ IH]; [exact Hinit|].
  apply IH. exact (Hstep _ _ Hinit H01).
Qed.

(** ** Objects with distinct keys *)

Section Keys.
Context {A : Type}.
Implicit Types (o : list (string * A)) (k : string) (v : A).

Lemma obj_get_In k v o : obj_get k o = Some v -> In (k, v) o.
Proof.
  induction o as [|[k' v'] o IH]; simpl; [discriminate|].
  destruct (String.eqb_spec k' k) as [->|Hne].
  - intros [= ->]. now left.
  - intros H. right. exact (IH H).
Qed.

Lemma obj_get_None k o : obj_get k o = None <-> ~ In k (List.map fst o).
Proof.
  induction o as [|[k' v'] o IH]; simpl; [tauto|].
  destruct (String.eqb_spec k' k) as [->|Hne].
  - split; [discriminate|]. intros H. exfalso. apply H. now left.
  - rewrite IH. tauto.
Qed.

Lemma In_obj_get k v o :
  NoDup (List.map fst o) -> In (k, v) o -> obj_get k o = Some v.
Proof.
  induction o as [|[k' v'] o IH]; simpl; [tauto|].
  intros Hnd [Heq|Hin].
  - injection Heq as -> ->. now rewrite String.eqb_refl.
  - apply NoDup_cons in Hnd as [Hk' Hnd].
    destruct (String.eqb_spec k' k) as [->|Hne].
    + exfalso. apply Hk'. apply list_elem_of_In.
      exact (List.in_map fst _ _ Hin).
    + exact (IH Hnd Hin).
Qed.

Lemma Forall_obj_set (P : string * A -> Prop) k v o :
  Forall P o -> P (k, v) -> Forall P (obj_set k v o).
Proof.
  intros Hall Hkv. induction Hall as [|[k' v'] o Hk' Hall IH]; simpl.
  - constructor; [exact Hkv|constructor].
  - destruct (String.eqb k' k); constructor; assumption.
Qed.

Lemma obj_set_keys k v o k' :
  In k' (List.map fst (obj_set k v o)) <-> k' = k \/ In k' (List.map fst o).
Proof.
  induction o as [|[k0 v0] o IH]; simpl.
  - split; [intros [H|[]]; now left|intros [H|[]]; now left].
  - destruct (String.eqb_spec k0 k) as [->|Hne]; simpl.
    + split; [intros [H|H]; [now left|right; now right]|].
      intros [H|[H|H]]; [now left|now left|now right].
    + rewrite IH. split.
      * intros [H|[H|H]]; [right; now left|now left|right; now right].
      * intros [H|[H|H]]; [right; now left|now left|right; now right].
Qed.

Lemma obj_set_NoDup k v o :
  NoDup (List.map fst o) -> NoDup (List.map fst (obj_set k v o)).
Proof.
  induction o as [|[k0 v0] o IH]; simpl; intros Hnd.
  - apply NoDup_singleton.
  - apply NoDup_cons in Hnd as [Hk0 Hnd].
    destruct (String.eqb_spec k0 k) as [->|Hne]; simpl.
    + apply NoDup_cons. split; assumption.
    + apply NoDup_cons. split; [|exact (IH Hnd)].
      rewrite list_elem_of_In, obj_set_keys. intros [H|H].
      * congruence.
      * apply Hk0. now apply list_elem_of_In.
Qed.

Lemma obj_delete_In k o k' :
  In k' (List.map fst (obj_delete k o)) ->
  k' <> k /\ In k' (List.map fst o).
Proof.
  unfold obj_delete. induction o as [|[k0 v0] o IH]; simpl; [tauto|].
  destruct (String.eqb_spec k0 k) as [->|Hne]; simpl.
  - intros H. destruct (IH H). tauto.
  - intros [<-|H]; [tauto|]. destruct (IH H). tauto.
Qed.

Lemma obj_delete_NoDup k o :
  NoDup (List.map fst o) -> NoDup (List.map fst (obj_delete k o)).
Proof.
  unfold obj_delete. induction o as [|[k0 v0] o IH]; simpl; intros Hnd.
  - constructor.
  - apply NoDup_cons in Hnd as [Hk0 Hnd].
    destruct (String.eqb k0 k); simpl; [exact (IH Hnd)|].
    apply NoDup_cons. split; [|exact (IH Hnd)].
    rewrite list_elem_of_In. intros H.
    apply obj_delete_In in H as [_ H].
    apply Hk0. now apply list_elem_of_In.
Qed.

(** Deleting a key that was just added to an object without it gives the
    object back. *)
Lemma obj_delete_set k v o :
  obj_get k o = None -> obj_delete k (obj_set k v o) = o.
Proof.
  unfold obj_delete. induction o as [|[k0 v0] o IH]; simpl.
  - now rewrite String.eqb_refl.
  - destruct (String.eqb_spec k0 k) as [->|Hne]; [discriminate|].
    intros H. simpl.
    destruct (String.eqb_spec k0 k); [contradiction|].
    simpl. now rewrite IH.
Qed.
End Keys.

(** ** What the variables of the server satisfy in every reachable state *)

Lemma consistent_initial : consistent initial.
Proof.
  split; simpl; try constructor.
  intros name u H. rewrite lookup_empty in H. discriminate.
Qed.

Lemma bet_ok_settle (m : Q) (p : player) : bet_ok p -> bet_ok (settle m p).
Proof.
  intros [Hwon Hbet]. unfold settle, bet_ok.
  destruct (cashedOut p) eqn:Hco; simpl.
  - destruct (Qltb _ m); simpl; [split; auto|].
    rewrite Hco. split; assumption.
  - split; [discriminate|exact Hbet].
Qed.

(** With distinct keys, a running game of [activeGames] is the object
    [gameState] refers to. *)
Lemma running_current (s : server) (k : string) (g : game) :
  consistent s ->
  In (k, g) (activeGames s) ->
  isRunning g = true ->
  gameState s = Some k /\ current s = Some g.
Proof.
  intros Hc Hin Hrun.
  pose proof (running_is_current s Hc) as Hall.
  rewrite List.Forall_forall in Hall.
  pose proof (Hall (k, g) Hin Hrun) as Hk. simpl in Hk.
  split; [exact Hk|]. unfold current. rewrite Hk.
  exact (In_obj_get k g _ (games_distinct s Hc) Hin).
Qed.

Lemma stopped_all (s : server) :
  consistent s -> gameState_isRunning s = false -> all_stopped s.
Proof.
  intros Hc Hstop. unfold all_stopped. apply List.Forall_forall.
  intros [k g] Hin. simpl.
  destruct (isRunning g) eqn:Hrun; [|reflexivity].
  destruct (running_current s k g Hc Hin Hrun) as [_ Hcur].
  unfold gameState_isRunning in Hstop. rewrite Hcur in Hstop. congruence.
Qed.

Lemma players_ok (s : server) (k : string) (g : game) :
  consistent s -> obj_get k (activeGames s) = Some g ->
  Forall bet_ok (players g).
Proof.
  intros Hc Hg. pose proof (bets_ok s Hc) as Hall.
  rewrite List.Forall_forall in Hall.
  exact (Hall (k, g) (obj_get_In k g _ Hg)).
Qed.

Lemma current_get (s : server) (g : game) :
  current s = Some g ->
  exists k, gameState s = Some k /\ obj_get k (activeGames s) = Some g.
Proof.
  unfold current. destruct (gameState s) as [k|]; [|discriminate].
  intros H. exists k. split; [reflexivity|exact H].
Qed.

Lemma consistent_transition (s s' : server) :
  consistent s -> transition s s' -> consistent s'.
Proof.
  intros Hc Ht.
  destruct Hc as [Hkeyed Hnd Hrun Hnames Hbets Hsock].
  assert (Hc : consistent s) by (split; assumption).
  destruct Ht as [socketId v|socketId|name pass id now Hname Hpass Hfree
                 |name gameId amount autoCashout now u g Hu Hg Hr Hbal Hmin
                 |name gameId u g i p Hu Hg Hr Hfind
                 |gameId h now Hstop
                 |m g Hcur Hr
                 |gameId now g Hg Hr].
  - split; simpl; try assumption. now apply obj_set_NoDup.
  - split; simpl; try assumption. now apply obj_delete_NoDup.
  - split; simpl; try assumption.
    intros name' u'. rewrite lookup_insert.
    destruct (decide (name = name')) as [<-|Hne]; [|apply Hnames].
    intros [= <-]. reflexivity.
  - pose proof (keyed_get _ _ _ Hkeyed Hg) as Hid.
    split; simpl; try assumption.
    + apply keyed_set; assumption.
    + now apply obj_set_NoDup.
    + apply Forall_obj_set; [exact Hrun|]. simpl. intros _.
      exact (proj1 (running_current s gameId g Hc (obj_get_In _ _ _ Hg) Hr)).
    + intros name' u'. rewrite lookup_insert.
      destruct (decide (name = name')) as [<-|Hne]; [|apply Hnames].
      intros [= <-]. simpl. exact (Hnames name u Hu).
    + apply Forall_obj_set; [exact Hbets|]. simpl.
      apply Forall_app. split; [exact (players_ok s gameId g Hc Hg)|].
      constructor; [|constructor].
      split; [discriminate|exact Hmin].
  - pose proof (keyed_get _ _ _ Hkeyed Hg) as Hid.
    apply list_find_Some in Hfind as (Hi & Hp & _).
    pose proof (players_ok s gameId g Hc Hg) as Hps.
    split; simpl; try assumption.
    + apply keyed_set; assumption.
    + now apply obj_set_NoDup.
    + apply Forall_obj_set; [exact Hrun|]. simpl. intros _.
      exact (proj1 (running_current s gameId g Hc (obj_get_In _ _ _ Hg) Hr)).
    + intros name' u'. rewrite lookup_insert.
      destruct (decide (name = name')) as [<-|Hne]; [|apply Hnames].
      intros [= <-]. simpl. exact (Hnames name u Hu).
    + apply Forall_obj_set; [exact Hbets|]. simpl.
      apply Forall_insert; [exact Hps|].
      split; [reflexivity|]. simpl.
      exact (proj2 (proj1 (Forall_lookup _ _) Hps i p Hi)).
  - pose proof (stopped_all s Hc Hstop) as Hall.
    split; simpl; try assumption.
    + apply keyed_set; [exact Hkeyed|reflexivity].
    + now apply obj_set_NoDup.
    + apply Forall_obj_set; [|reflexivity].
      unfold all_stopped in Hall.
      eapply List.Forall_impl; [|exact Hall].
      intros [k g] Hg Hr. simpl in *. congruence.
    + apply Forall_obj_set; [exact Hbets|]. simpl. constructor.
  - destruct (current_get s g Hcur) as (k & Hk & Hg).
    pose proof (keyed_get _ _ _ Hkeyed Hg) as Hid.
    unfold update_current. rewrite Hk, Hcur.
    split; simpl; try assumption.
    + apply keyed_set; assumption.
    + now apply obj_set_NoDup.
    + apply Forall_obj_set; [exact Hrun|]. simpl. intros _. exact Hk.
    + apply Forall_obj_set; [exact Hbets|]. simpl.
      exact (players_ok s k g Hc Hg).
  - pose proof (keyed_get _ _ _ Hkeyed Hg) as Hid.
    split; simpl; try assumption.
    + apply keyed_set; assumption.
    + now apply obj_set_NoDup.
    + apply Forall_obj_set; [exact Hrun|]. simpl. discriminate.
    + apply Forall_obj_set; [exact Hbets|]. simpl.
      apply List.Forall_map.
      eapply List.Forall_impl; [|exact (players_ok s gameId g Hc Hg)].
      intros p. apply bet_ok_settle.
Qed.

Lemma reachable_consistent (s : server) : reachable s -> consistent s.
Proof.
  apply reachable_ind; [exact consistent_initial|].
  intros s0 s1. apply consistent_transition.
Qed.

Lemma run_reachable (ins : list input) : reachable (state_of (run ins initial)).
Proof. exists ins. reflexivity. Qed.

(** ** Accounts *)

(** X1. A registration with non-empty credentials and a name that is
    neither registered nor a property name the accounts object inherits
    creates the account with balance 1000; a login with the same password
    then answers with that account and changes nothing, and a login with
    any other password is refused with status 401. *)
Theorem register_then_login
    (s : server) (name pass id : string) (now : Z) :
  name <> ""%string ->
  pass <> ""%string ->
  inherited name = false ->
  users s !! name = None ->
  let r := api_register name pass id now s in
  result_of r = Registered id name 1000 /\
  output_of r = [] /\
  api_login name pass (state_of r)
  = (LoggedIn id name 1000 0 0 0, state_of r, []) /\
  forall pass', pass' <> pass ->
    api_login name pass' (state_of r) = (LoginFailure 401, state_of r, []).
Proof.
  intros Hname Hpass _ Hfree r. subst r.
  unfold api_register. unfold_M.
  destruct (String.eqb_spec name ""); [contradiction|].
  destruct (String.eqb_spec pass ""); [contradiction|].
  simpl. rewrite Hfree. simpl.
  split; [reflexivity|]. split; [reflexivity|].
  unfold api_login. unfold_M. simpl. rewrite lookup_insert_eq. simpl.
  split.
  - now rewrite String.eqb_refl.
  - intros pass' Hne.
    destruct (String.eqb_spec pass pass'); [congruence|reflexivity].
Qed.

Lemma register_then_login_witness :
  let r := api_register "alice" "secret" "u1" 0 initial in
  result_of r = Registered "u1" "alice" 1000 /\
  api_login "alice" "secret" (state_of r)
  = (LoggedIn "u1" "alice" 1000 0 0 0, state_of r, []) /\
  api_login "alice" "guess" (state_of r)
  = (LoginFailure 401, state_of r, []).
Proof.
  destruct (register_then_login initial "alice" "secret" "u1" 0)
    as (Hreg & _ & Hok & Hbad).
  - discriminate.
  - discriminate.
  - reflexivity.
  - reflexivity.
  - split; [exact Hreg|]. split; [exact Hok|].
    apply Hbad. discriminate.
Defined.

(** The identifier, the name, the password and the creation time of an
    account. *)
Lemma transition_keeps_account (s s' : server) (name : string) (u : user) :
  transition s s' ->
  users s !! name = Some u ->
  exists u', users s' !! name = Some u' /\
             user_id u' = user_id u /\ username u' = username u /\
             password u' = password u /\ createdAt u' = createdAt u.
Proof.
  intros Ht Hu.
  destruct Ht as [socketId v|socketId|name0 pass id now Hname Hpass Hfree
                 |name0 gameId amount autoCashout now u0 g Hu0 Hg Hr Hbal Hmin
                 |name0 gameId u0 g i p Hu0 Hg Hr Hfind
                 |gameId h now Hstop
                 |m g Hcur Hr
                 |gameId now g Hg Hr]; simpl;
    try (exists u; repeat split; assumption).
  - exists u. rewrite lookup_insert_ne by congruence. repeat split; assumption.
  - destruct (decide (name0 = name)) as [->|Hne].
    + rewrite lookup_insert_eq. eexists. split; [reflexivity|].
      assert (u0 = u) as -> by congruence. repeat split.
    + rewrite lookup_insert_ne by exact Hne. exists u. repeat split; assumption.
  - destruct (decide (name0 = name)) as [->|Hne].
    + rewrite lookup_insert_eq. eexists. split; [reflexivity|].
      assert (u0 = u) as -> by congruence. repeat split.
    + rewrite lookup_insert_ne by exact Hne. exists u. repeat split; assumption.
  - unfold update_current.
    destruct (gameState s); [|exists u; repeat split; assumption].
    destruct (current s); exists u; repeat split; assumption.
Qed.

Lemma transitions_keep_account (s s' : server) (name : string) :
  rtc transition s s' ->
  forall u, users s !! name = Some u ->
  exists u', users s' !! name = Some u' /\
             user_id u' = user_id u /\ username u' = username u /\
             password u' = password u /\ createdAt u' = createdAt u.
Proof.
  induction 1 as [s0|s0 s1 s2 H01 _ IH]; intros u Hu.
  - exists u. repeat split. exact Hu.
  - destruct (transition_keeps_account s0 s1 name u H01 Hu)
      as (u1 & Hu1 & Hid & Hn & Hp & Hc).
    destruct (IH u1 Hu1) as (u2 & Hu2 & Hid2 & Hn2 & Hp2 & Hc2).
    exists u2. repeat split; congruence.
Qed.

(** X2. No input deletes an account or changes its identifier, name,
    password or creation time: whatever the server does after an account
    exists, a login with the password of the account succeeds and answers
    with the same identifier and name. *)
Theorem accounts_are_kept
    (ins : list input) (s : server) (name : string) (u : user) :
  users s !! name = Some u ->
  let s' := state_of (run ins s) in
  (exists u', users s' !! name = Some u' /\
              user_id u' = user_id u /\ username u' = username u /\
              password u' = password u /\ createdAt u' = createdAt u) /\
  exists bal played wins total,
    api_login name (password u) s'
    = (LoggedIn (user_id u) (username u) bal played wins total, s', []).
Proof.
  intros Hu s'. subst s'.
  assert (H : exists u', users (state_of (run ins s)) !! name = Some u' /\
              user_id u' = user_id u /\ username u' = username u /\
              password u' = password u /\ createdAt u' = createdAt u).
  { exact (transitions_keep_account s _ name (run_transitions ins s) u Hu). }
  split; [exact H|].
  destruct H as (u' & Hu' & Hid & Hn & Hp & _).
  unfold api_login. unfold_M. rewrite Hu'. simpl.
  rewrite Hp, String.eqb_refl. simpl. rewrite Hid, Hn.
  eexists _, _, _, _. reflexivity.
Qed.

Lemma accounts_are_kept_witness :
  let s := state_of (api_register "alice" "secret" "u1" 0 initial) in
  let s' := state_of (run [ Register "alice" "other" "u2" 5;
                            Restart "g1" draw_2_00 1000;
                            PlaceBet "alice" "g1" 100 None 1000 "b1";
                            Tick "g1" 21000 21000 ] s) in
  exists bal played wins total,
    api_login "alice" "secret" s'
    = (LoggedIn "u1" "alice" bal played wins total, s', []).
Proof.
  intros s s'.
  destruct (accounts_are_kept
              [ Register "alice" "other" "u2" 5;
                Restart "g1" draw_2_00 1000;
                PlaceBet "alice" "g1" 100 None 1000 "b1";
                Tick "g1" 21000 21000 ] s "alice"
              (new_user "u1" "alice" "secret" 0)) as [_ H].
  - vm_compute. reflexivity.
  - exact H.
Defined.

(** ** GET /api/game-history *)

Lemma last_n_last_n {A} (n m : nat) (l : list A) :
  (n <= m)%nat -> last_n n (last_n m l) = last_n n l.
Proof.
  intros Hnm. unfold last_n. rewrite length_drop, drop_drop.
  f_equal. lia.
Qed.

(** X3. Whatever the server has done since its start, the history
    endpoint answers with the last 20 rounds reported as completed, the
    most recent first: all of them when there are fewer than 20. *)
Theorem game_history_latest_20 (ins : list input) :
  let r := run ins initial in
  let completed := ended (output_of r) in
  let answer := result_of (api_game_history (state_of r)) in
  List.map entry_key answer = rev (last_n 20 completed) /\
  length answer = Nat.min (length completed) 20.
Proof.
  intros r completed answer.
  assert (H : List.map entry_key (gameHistory (state_of r))
              = last_n 100 completed).
  { apply (run_history ins initial []); [constructor|reflexivity]. }
  assert (Hkeys : List.map entry_key answer = rev (last_n 20 completed)).
  { subst answer. unfold api_game_history. unfold_M. simpl.
    rewrite List.map_rev. f_equal. unfold last_n at 1.
    rewrite <- (List.length_map entry_key), <- List.skipn_map, H.
    apply (last_n_last_n 20 100). lia. }
  split; [exact Hkeys|].
  rewrite <- (List.length_map entry_key), Hkeys, List.length_rev.
  apply last_n_length.
Qed.

(** ** One round at a time *)

(** X4. In every state the server can reach at most one game of
    [activeGames] is running; it is the object [gameState] refers to, and
    it is stored under its own identifier. *)
Theorem one_running_round
    (ins : list input) (k k' : string) (g g' : game) :
  let s := state_of (run ins initial) in
  In (k, g) (activeGames s) ->
  isRunning g = true ->
  (In (k', g') (activeGames s) -> isRunning g' = true ->
   k' = k /\ g' = g) /\
  gameState s = Some k /\ current s = Some g /\ game_id g = k.
Proof.
  intros s Hin Hrun.
  pose proof (reachable_consistent s (run_reachable ins)) as Hc.
  destruct (running_current s k g Hc Hin Hrun) as [Hk Hcur].
  split; [|split; [exact Hk|split; [exact Hcur|]]].
  - intros Hin' Hrun'.
    destruct (running_current s k' g' Hc Hin' Hrun') as [Hk' Hcur'].
    split; congruence.
  - destruct (current_get s g Hcur) as (k0 & Hk0 & Hg).
    assert (k0 = k) as -> by congruence.
    exact (keyed_get _ _ _ (games_keyed s Hc) Hg).
Qed.

Lemma one_running_round_witness :
  let s := state_of (run (rounds 0 3 1000 ++ [ Restart "g" 0 20000 ])
                       initial) in
  length (activeGames s) = 4%nat /\
  exists g, In ("g"%string, g) (activeGames s) /\
            isRunning g = true /\
            gameState s = Some "g"%string /\ current s = Some g.
Proof.
  intros s.
  assert (Hg : exists g, In ("g"%string, g) (activeGames s) /\
                         isRunning g = true).
  { assert (Hlast : exists g, last (activeGames s) = Some ("g"%string, g) /\
                                isRunning g = true).
    { eexists. split; [vm_compute; reflexivity|reflexivity]. }
    destruct Hlast as (g & Hlast & Hrun). exists g.
    exact (conj (proj1 (list_elem_of_In _ _) (last_Some_elem_of _ _ Hlast))
             Hrun). }
  destruct Hg as (g & Hin & Hrun).
  destruct (one_running_round (rounds 0 3 1000 ++ [ Restart "g" 0 20000 ])
              "g" "g" g g Hin Hrun) as (_ & Hk & Hcur & _).
  split; [vm_compute; reflexivity|].
  exact (ex_intro _ g (conj Hin (conj Hrun (conj Hk Hcur)))).
Defined.

Lemma find_running_current (s : server) :
  consistent s ->
  List.find isRunning (obj_values (activeGames s))
  = match current s with
    | Some g => if isRunning g then Some g else None
    | None => None
    end.
Proof.
  intros Hc.
  destruct (List.find isRunning (obj_values (activeGames s))) as [g|] eqn:Hf.
  - apply List.find_some in Hf as [Hin Hrun].
    unfold obj_values in Hin. apply List.in_map_iff in Hin as ([k g0] & <- & Hin).
    simpl in *.
    destruct (running_current s k g0 Hc Hin Hrun) as [_ ->].
    now rewrite Hrun.
  - destruct (current s) as [g|] eqn:Hcur; [|reflexivity].
    destruct (isRunning g) eqn:Hrun; [|reflexivity].
    destruct (current_get s g Hcur) as (k & _ & Hg).
    pose proof (List.find_none _ _ Hf g) as Hnone.
    rewrite Hrun in Hnone. exfalso.
    assert (true = false); [apply Hnone|discriminate].
    unfold obj_values. apply List.in_map_iff.
    exists (k, g). split; [reflexivity|exact (obj_get_In _ _ _ Hg)].
Qed.

(** X5. In every state the server can reach, a socket that joins is sent
    [game_state] exactly when the round [gameState] refers to is running,
    and the snapshot is that round; [online_update] follows in both
    cases. *)
Theorem join_snapshot_is_current
    (ins : list input) (socketId name : string) (bal : Q) (now : Z) :
  let s := state_of (run ins initial) in
  exists n names,
    output_of (on_user_join socketId name bal now s)
    = match current s with
      | Some g => if isRunning g
                  then [game_state socketId g; online_update n names]
                  else [online_update n names]
      | None => [online_update n names]
      end.
Proof.
  intros s.
  pose proof (find_running_current s (reachable_consistent s (run_reachable ins)))
    as Hfind.
  unfold on_user_join. unfold_M. simpl. rewrite Hfind.
  destruct (current s) as [g|]; [destruct (isRunning g)|];
    simpl; eexists _, _; reflexivity.
Qed.

(** ** Starting and stopping a round *)

Lemma startNewGame_running (gameId : string) (h : Z) (now : Z) (s : server) :
  gameState_isRunning (state_of (startNewGame gameId h now s)) = true.
Proof.
  unfold startNewGame. unfold_M.
  destruct (gameState_isRunning s) eqn:Hrun; simpl; [exact Hrun|].
  unfold gameState_isRunning, current. simpl.
  now rewrite obj_get_set_eq.
Qed.

(** X6. After a call of [startNewGame] a round is running, and a second
    call, whatever its identifier and draw, changes nothing and emits
    nothing; in particular it does not replace the crash point. *)
Theorem start_is_idempotent
    (s : server) (gameId gameId' : string) (h h' : Z) (now now' : Z) :
  let s1 := state_of (startNewGame gameId h now s) in
  gameState_isRunning s1 = true /\
  startNewGame gameId' h' now' s1 = (tt, s1, []).
Proof.
  intros s1. subst s1.
  pose proof (startNewGame_running gameId h now s) as Hrun.
  split; [exact Hrun|].
  unfold startNewGame at 1. unfold mbind, M_bind, gets.
  rewrite Hrun. reflexivity.
Qed.

Lemma endGame_stopped (gameId : string) (now : Z) (s : server) :
  match obj_get gameId (activeGames (state_of (endGame gameId now s))) with
  | Some g => isRunning g = false
  | None => True
  end.
Proof.
  destruct (endGame_spec gameId now s) as [H|(g & Hg & Hrun & ->)].
  - rewrite H. unfold endGame in H. unfold_M. simpl.
    destruct (obj_get gameId (activeGames s)) as [g|]; [|exact I].
    destruct (isRunning g) eqn:Hrun; [|reflexivity].
    simpl in H. discriminate.
  - unfold_M. simpl. now rewrite obj_get_set_eq.
Qed.

Lemma endGame_keeps_stopped
    (gameId : string) (now : Z) (s : server) (k : string) (g : game) :
  obj_get k (activeGames s) = Some g ->
  isRunning g = false ->
  obj_get k (activeGames (state_of (endGame gameId now s))) = Some g.
Proof.
  intros Hg Hstop.
  destruct (endGame_spec gameId now s) as [->|(g0 & Hg0 & Hrun0 & ->)];
    [exact Hg|].
  unfold_M. simpl.
  rewrite obj_get_set_ne; [exact Hg|].
  intros ->. congruence.
Qed.

(** An input that does not start a round under the identifier of a stopped
    game leaves the game as it is. *)
Lemma handle_keeps_stopped (i : input) (s : server) (k : string) (g : game) :
  obj_get k (activeGames s) = Some g ->
  isRunning g = false ->
  ~ restarts k i ->
  obj_get k (activeGames (state_of (handle i s))) = Some g.
Proof.
  intros Hg Hstop Hi. destruct i; unfold handle.
  - unfold api_register. unfold_M.
    destruct (String.eqb name "" || String.eqb pass ""); simpl; [exact Hg|].
    destruct (users s !! name); exact Hg.
  - unfold api_place_bet. unfold_M.
    destruct (users s !! name); [|exact Hg].
    destruct (obj_get gameId (activeGames s)) as [g0|] eqn:Hg0; [|exact Hg].
    destruct (negb (isRunning g0)) eqn:Hrun0; simpl; [exact Hg|].
    apply negb_false_iff in Hrun0.
    destruct (Qltb _ amount); [exact Hg|].
    destruct (Qltb amount 10); [exact Hg|].
    simpl. rewrite obj_get_set_ne; [exact Hg|].
    intros ->. congruence.
  - unfold api_cash_out. unfold_M.
    destruct (users s !! name); [|exact Hg].
    destruct (obj_get gameId (activeGames s)) as [g0|] eqn:Hg0; [|exact Hg].
    destruct (negb (isRunning g0)) eqn:Hrun0; simpl; [exact Hg|].
    apply negb_false_iff in Hrun0.
    destruct (list_find _ _) as [[j p]|]; [|exact Hg].
    simpl. rewrite obj_get_set_ne; [exact Hg|].
    intros ->. congruence.
  - unfold api_user. unfold_M. destruct (users s !! name); exact Hg.
  - unfold on_user_join. unfold_M. simpl.
    destruct (List.find _ _); exact Hg.
  - exact Hg.
  - unfold startNewGame. unfold_M.
    destruct (gameState_isRunning s); [exact Hg|].
    simpl. rewrite obj_get_set_ne; [exact Hg|].
    intros ->. apply Hi. reflexivity.
  - unfold mbind, M_bind, mret, M_ret. rewrite tick_spec.
    destruct (current s) as [g0|] eqn:Hcur; [|exact Hg].
    destruct (isRunning g0) eqn:Hrun0; [|exact Hg].
    cbv zeta.
    destruct (current_get s g0 Hcur) as (k0 & Hk0 & Hg0).
    assert (Hg1 : obj_get k
                    (activeGames
                       (update_current
                          (set_multiplier (tick_multiplier g0 now)) s))
                  = Some g).
    { unfold update_current. rewrite Hk0, Hcur. simpl.
      rewrite obj_get_set_ne; [exact Hg|]. intros ->. congruence. }
    destruct (Qgeb _ _); [|exact Hg1].
    pose proof (endGame_keeps_stopped gameId endNow _ k g Hg1 Hstop) as H.
    unfold state_of in *.
    destruct (endGame gameId endNow _) as [[x s'] out]. exact H.
  - unfold ceiling. unfold_M.
    destruct (gameState_isRunning s); [|exact Hg].
    pose proof (endGame_keeps_stopped gameId now s k g Hg Hstop) as H.
    unfold state_of in *.
    destruct (endGame gameId now s) as [[x s'] out]. exact H.
Qed.

Lemma run_keeps_stopped (ins : list input) (k : string) (g : game) :
  forall s,
    obj_get k (activeGames s) = Some g ->
    isRunning g = false ->
    no_restart k ins ->
    obj_get k (activeGames (state_of (run ins s))) = Some g.
Proof.
  induction ins as [|i ins IH]; intros s Hg Hstop Hno; [exact Hg|].
  apply Forall_cons in Hno as [Hi Hno].
  destruct (run_cons i ins s) as [-> _].
  apply IH; [|exact Hstop|exact Hno].
  apply handle_keeps_stopped; assumption.
Qed.

(** X7. A stopped round is never changed again: whatever inputs follow, as
    long as none of them starts a round under the same identifier, its game
    object is the one [endGame] left, and a later call of [endGame] for it,
    like its 30 s timeout whenever it fires, changes nothing and emits
    nothing. *)
Theorem stopped_round_stays_stopped
    (ins : list input) (s : server) (gameId : string) (g : game) (now : Z) :
  obj_get gameId (activeGames s) = Some g ->
  isRunning g = false ->
  no_restart gameId ins ->
  let s' := state_of (run ins s) in
  obj_get gameId (activeGames s') = Some g /\
  endGame gameId now s' = (tt, s', []) /\
  ceiling gameId now s' = (tt, s', []).
Proof.
  intros Hg Hstop Hno s'.
  pose proof (run_keeps_stopped ins gameId g s Hg Hstop Hno) as Hg'.
  fold s' in Hg'.
  assert (Hend : endGame gameId now s' = (tt, s', [])).
  { unfold endGame. unfold_M. now rewrite Hg', Hstop. }
  split; [exact Hg'|]. split; [exact Hend|].
  unfold ceiling. unfold mbind, M_bind, gets.
  destruct (gameState_isRunning s'); [|reflexivity].
  now rewrite Hend.
Qed.

Lemma stopped_round_stays_stopped_witness :
  let s := state_of (run (rounds 0 1 1000) initial) in
  let later := [ Register "alice" "secret" "u1" 6000;
                 Restart "g2" draw_2_00 6300;
                 PlaceBet "alice" (round_id 0) 100 None 6400 "b1";
                 Tick "g2" 6400 6400;
                 Ceiling (round_id 0) 31000 ] in
  exists g,
    obj_get (round_id 0) (activeGames s) = Some g /\
    obj_get (round_id 0) (activeGames (state_of (run later s))) = Some g /\
    ceiling (round_id 0) 31000 (state_of (run later s))
    = (tt, state_of (run later s), []).
Proof.
  intros s later.
  assert (Hg : exists g, obj_get (round_id 0) (activeGames s) = Some g /\
                         isRunning g = false).
  { eexists. split; [vm_compute; reflexivity|reflexivity]. }
  destruct Hg as (g & Hg & Hstop).
  assert (Hno : no_restart (round_id 0) later).
  { repeat constructor; simpl; try tauto. discriminate. }
  destruct (stopped_round_stays_stopped later s (round_id 0) g 31000
              Hg Hstop Hno) as (Hg' & _ & Hceil).
  exact (ex_intro _ g (conj Hg (conj Hg' Hceil))).
Defined.

(** X8. A stopped round takes no request: whatever inputs follow the stop,
    as long as none of them starts a round under the same identifier, a
    cash-out for the round is refused with 'Невозможно выполнить операцию'
    and a bet on it is refused, with 'Игра не активна' when the account
    exists; neither changes or emits anything. *)
Theorem stopped_round_refuses_requests
    (ins : list input) (s : server) (gameId : string) (g : game)
    (name : string) (amount : Q) (autoCashout : option Q) (now : Z)
    (betId : string) :
  obj_get gameId (activeGames s) = Some g ->
  isRunning g = false ->
  no_restart gameId ins ->
  let s' := state_of (run ins s) in
  api_cash_out name gameId s' = (Failure 400 CannotPerform, s', []) /\
  exists status err,
    api_place_bet name gameId amount autoCashout now betId s'
    = (Failure status err, s', []) /\
    (is_Some (users s' !! name) ->
     status = 400%Z /\ err = GameNotActive).
Proof.
  intros Hg Hstop Hno s'.
  pose proof (run_keeps_stopped ins gameId g s Hg Hstop Hno) as Hg'.
  fold s' in Hg'. split.
  - unfold api_cash_out. unfold_M. rewrite Hg'.
    destruct (users s' !! name); [|reflexivity].
    now rewrite Hstop.
  - unfold api_place_bet. unfold_M. rewrite Hg'.
    destruct (users s' !! name) as [u|].
    + rewrite Hstop. simpl. eexists _, _. split; [reflexivity|].
      intros _. split; reflexivity.
    + eexists _, _. split; [reflexivity|].
      intros [u Hu]. discriminate.
Qed.

Lemma stopped_round_refuses_requests_witness :
  let s := state_of (run (Register "alice" "secret" "u1" 0
                          :: rounds 0 1 1000) initial) in
  let s' := state_of (run [ Restart "g2" draw_2_00 6300;
                            Tick "g2" 6400 6400 ] s) in
  api_cash_out "alice" (round_id 0) s' = (Failure 400 CannotPerform, s', []) /\
  api_place_bet "alice" (round_id 0) 100 None 6500 "b1" s'
  = (Failure 400 GameNotActive, s', []).
Proof.
  intros s s'.
  assert (Hg : exists g, obj_get (round_id 0) (activeGames s) = Some g /\
                         isRunning g = false).
  { eexists. split; [vm_compute; reflexivity|reflexivity]. }
  assert (Hu : is_Some (users s' !! "alice"))
    by (vm_compute; eexists; reflexivity).
  destruct Hg as (g & Hg & Hstop).
  assert (Hno : no_restart (round_id 0)
                  [ Restart "g2" draw_2_00 6300; Tick "g2" 6400 6400 ]).
  { repeat constructor; simpl; try tauto. discriminate. }
  destruct (stopped_round_refuses_requests
              [ Restart "g2" draw_2_00 6300; Tick "g2" 6400 6400 ]
              s (round_id 0) g "alice" 100 None 6500 "b1" Hg Hstop Hno)
    as (Hco & status & err & Hbet & Hkind).
  destruct (Hkind Hu) as [-> ->].
  exact (conj Hco Hbet).
Defined.

(** ** A bet and its cash-out *)

(** X9. When an account that is stored under its name and has no open bet
    in a running game places a valid bet, the cash-out that follows closes
    that very bet at the multiplier of the game: the bet keeps its stake,
    records that multiplier and is cashed out, the other bets of the game
    are as they were, the payout of the answer is the one broadcast in
    [cash_out], and the account has no open bet in the game afterwards. *)
Theorem bet_then_cash_out
    (s : server) (name gameId : string) (amount : Q)
    (autoCashout : option Q) (now : Z) (betId : string)
    (u : user) (g : game) :
  users s !! name = Some u ->
  username u = name ->
  obj_get gameId (activeGames s) = Some g ->
  isRunning g = true ->
  amount <= balance u ->
  10 <= amount ->
  open_bets name (players g) = [] ->
  let s1 := state_of (api_place_bet name gameId amount autoCashout now betId s) in
  let r := api_cash_out name gameId s1 in
  (exists payout bal,
     result_of r = CashedOut (toFixed 2 (multiplier g)) payout bal /\
     output_of r
     = [cash_out gameId name (toFixed 2 (multiplier g)) payout]) /\
  List.map bet_status (players_of gameId (state_of r))
  = List.map bet_status (players g)
    ++ [(name, amount, Some (multiplier g), true)] /\
  open_bets name (players_of gameId (state_of r)) = [].
Proof.
  intros Hu Hname Hg Hrun Hbal Hmin Hnone s1 r. subst r s1.
  unfold api_place_bet. unfold_M. rewrite Hu, Hg, Hrun. simpl.
  apply Qltb_ge in Hbal, Hmin. rewrite Hbal, Hmin. simpl.
  unfold api_cash_out. unfold_M. simpl.
  rewrite lookup_insert_eq, obj_get_set_eq. simpl.
  assert (Hfind : list_find (open_bet_of name) (players g) = None).
  { apply open_bets_none. now rewrite Hnone. }
  rewrite (list_find_app_r _ _ _ Hfind). simpl.
  rewrite decide_True by (split; [exact Hname|reflexivity]). simpl.
  split; [eexists _, _; split; reflexivity|].
  unfold players_of. simpl. rewrite obj_get_set_eq. simpl.
  rewrite insert_app_r_alt by lia.
  rewrite Nat.sub_diag. simpl. split.
  - rewrite List.map_app. simpl. unfold bet_status at 2. simpl.
    now rewrite Hname.
  - unfold open_bets. rewrite filter_app. fold (open_bets name (players g)).
    rewrite Hnone. simpl.
    rewrite filter_cons_False by (intros [_ H]; discriminate).
    reflexivity.
Qed.

Lemma bet_then_cash_out_witness :
  let s := state_of (run (alice_joins draw_2_00 ++ [ Tick "g1" 11000 11000 ])
                       initial) in
  let s1 := state_of (api_place_bet "alice" "g1" 100 None 11050 "b1" s) in
  let r := api_cash_out "alice" "g1" s1 in
  exists m,
    List.map bet_status (players_of "g1" (state_of r))
    = [("alice"%string, 100, Some m, true)] /\
    m == 15 # 10 /\
    open_bets "alice" (players_of "g1" (state_of r)) = [].
Proof.
  intros s s1 r.
  assert (Hu : users s !! "alice" = Some (new_user "u1" "alice" "secret" 0))
    by (vm_compute; reflexivity).
  assert (Hg : exists g, obj_get "g1" (activeGames s) = Some g /\
                         isRunning g = true /\ players g = [] /\
                         multiplier g == 15 # 10).
  { eexists. split; [vm_compute; reflexivity|]. repeat split. }
  destruct Hg as (g & Hg & Hrun & Hps & Hm).
  destruct (bet_then_cash_out s "alice" "g1" 100 None 11050 "b1"
              (new_user "u1" "alice" "secret" 0) g Hu)
    as (_ & Hbets & Hopen).
  - reflexivity.
  - exact Hg.
  - exact Hrun.
  - discriminate.
  - discriminate.
  - rewrite Hps. reflexivity.
  - rewrite Hps in Hbets.
    exact (ex_intro _ (multiplier g) (conj Hbets (conj Hm Hopen))).
Defined.

(** ** Bets in reachable states *)

Lemma winners_count (m : Q) (ps : list player) :
  Forall bet_ok ps ->
  length (List.filter won (List.map (settle m) ps))
  = length (List.filter cashedOut ps).
Proof.
  induction 1 as [|p ps [Hwon _] _ IH]; simpl; [reflexivity|].
  unfold settle at 1.
  destruct (cashedOut p) eqn:Hco; simpl.
  - destruct (Qltb _ m); simpl; [now rewrite IH|].
    rewrite (Hwon eq_refl). simpl. now rewrite IH.
  - exact IH.
Qed.

(** X10. In every state the server can reach, stopping a running game
    reports as winners exactly the bets that were cashed out: the count of
    [game_end] is the number of cashed-out bets of the game. *)
Theorem winners_are_cashed_out
    (ins : list input) (gameId : string) (now : Z) (g : game) :
  let s := state_of (run ins initial) in
  obj_get gameId (activeGames s) = Some g ->
  isRunning g = true ->
  output_of (endGame gameId now s)
  = [game_end gameId (toFixed 2 (multiplier g)) (crashPoint g)
       (List.map (settle (multiplier g)) (players g))
       (length (List.filter cashedOut (players g)))].
Proof.
  intros s Hg Hrun.
  rewrite (endGame_running gameId now s g Hg Hrun).
  unfold_M. simpl. f_equal. f_equal.
  apply winners_count.
  exact (players_ok s gameId g
           (reachable_consistent s (run_reachable ins)) Hg).
Qed.

Lemma winners_are_cashed_out_witness :
  let ins := alice_joins draw_2_00 ++
             [ PlaceBet "alice" "g1" 100 None 1000 "b1";
               PlaceBet "alice" "g1" 50 None 1000 "b2";
               Tick "g1" 11000 11000;
               CashOut "alice" "g1" ] in
  exists finalMultiplier crashPoint players,
    output_of (endGame "g1" 12000 (state_of (run ins initial)))
    = [game_end "g1" finalMultiplier crashPoint players 1].
Proof.
  intros ins.
  assert (Hg : exists g,
             obj_get "g1" (activeGames (state_of (run ins initial))) = Some g /\
             isRunning g = true /\
             length (List.filter cashedOut (players g)) = 1%nat).
  { eexists. split; [vm_compute; reflexivity|]. split; reflexivity. }
  destruct Hg as (g & Hg & Hrun & Hn).
  pose proof (winners_are_cashed_out ins "g1" 12000 g Hg Hrun) as H.
  rewrite Hn in H. eexists _, _, _. exact H.
Defined.

(** X11. The amount of a bet request being a number, as it is in every
    [PlaceBet] input: in every state the server can reach, every bet of
    every game has a stake of at least 10, and a bet that is cashed out is
    marked won. *)
Theorem stakes_at_least_minimum
    (ins : list input) (gameId : string) (g : game) (p : player) :
  let s := state_of (run ins initial) in
  In (gameId, g) (activeGames s) ->
  In p (players g) ->
  10 <= bet p /\ (cashedOut p = true -> won p = true).
Proof.
  intros s Hg Hp.
  pose proof (bets_ok s (reachable_consistent s (run_reachable ins))) as Hall.
  rewrite List.Forall_forall in Hall. specialize (Hall (gameId, g) Hg).
  simpl in Hall. rewrite List.Forall_forall in Hall.
  destruct (Hall p Hp) as [Hwon Hbet]. split; assumption.
Qed.

Lemma stakes_at_least_minimum_witness :
  let ins := alice_joins draw_2_00 ++
             [ PlaceBet "alice" "g1" 100 None 1000 "b1" ] in
  exists g p,
    last (activeGames (state_of (run ins initial))) = Some ("g1"%string, g) /\
    last (players g) = Some p /\
    10 <= bet p.
Proof.
  intros ins.
  assert (Hg : exists g p,
             last (activeGames (state_of (run ins initial)))
             = Some ("g1"%string, g) /\
             last (players g) = Some p).
  { eexists _, _. split; [vm_compute; reflexivity|reflexivity]. }
  destruct Hg as (g & p & Hg & Hp).
  exact (ex_intro _ g (ex_intro _ p (conj Hg (conj Hp
    (proj1 (stakes_at_least_minimum ins "g1" g p
       (proj1 (list_elem_of_In _ _) (last_Some_elem_of _ _ Hg))
       (proj1 (list_elem_of_In _ _) (last_Some_elem_of _ _ Hp)))))))).
Defined.

(** ** Sockets *)

Lemma server_eta (s : server) :
  {| users := users s; activeGames := activeGames s;
     gameHistory := gameHistory s; onlineUsers := onlineUsers s;
     gameState := gameState s |} = s.
Proof. destruct s. reflexivity. Qed.

(** X12. A socket that is not online joins and then disconnects: while it
    is online the online-users endpoint lists it with the name and balance
    it gave and the time of the join, and after the disconnection the
    server is in the state it was in before the join. *)
Theorem join_then_disconnect
    (s : server) (socketId name : string) (bal : Q) (now : Z) :
  obj_get socketId (onlineUsers s) = None ->
  let s1 := state_of (on_user_join socketId name bal now s) in
  In (name, bal, now) (result_of (api_online_users s1)) /\
  length (result_of (api_online_users s1))
  = S (length (result_of (api_online_users s))) /\
  state_of (on_disconnect socketId s1) = s.
Proof.
  intros Hnew s1. subst s1.
  unfold on_user_join, on_disconnect, api_online_users. unfold_M. simpl.
  assert (Hset : forall v, obj_set socketId v (onlineUsers s)
                           = onlineUsers s ++ [(socketId, v)]).
  { intros v. revert Hnew. generalize (onlineUsers s).
    induction l as [|[k0 v0] l IH]; simpl; [reflexivity|].
    destruct (String.eqb k0 socketId); [discriminate|].
    intros H. now rewrite IH. }
  split; [|split].
  - destruct (List.find _ _); simpl; rewrite Hset;
      unfold obj_values; rewrite !List.map_app; simpl;
      apply List.in_or_app; right; now left.
  - destruct (List.find _ _); simpl; rewrite Hset;
      unfold obj_values; rewrite !List.length_map, length_app; simpl; lia.
  - destruct (List.find _ _); simpl;
      unfold set_onlineUsers; simpl;
      rewrite obj_delete_set by exact Hnew; apply server_eta.
Qed.

Lemma join_then_disconnect_witness :
  let s := state_of (run (alice_joins draw_2_00) initial) in
  let s1 := state_of (on_user_join "sock1" "alice" 1000 1500 s) in
  In ("alice"%string, 1000, 1500%Z) (result_of (api_online_users s1)) /\
  state_of (on_disconnect "sock1" s1) = s.
Proof.
  intros s s1.
  destruct (join_then_disconnect s "sock1" "alice" 1000 1500)
    as (Hin & _ & Hback).
  - vm_compute. reflexivity.
  - exact (conj Hin Hback).
Defined.

(** ** The multiplier of a running round *)

Lemma generateCrashPoint_above_1 (h : Z) : 1 < generateCrashPoint h.
Proof.
  unfold generateCrashPoint.
  apply Qlt_le_trans with (101 # 100); [reflexivity|].
  apply Q.le_max_l.
Qed.

Lemma tick_multiplier_ge_1 (g : game) (now : Z) :
  (startTime g <= now)%Z -> 1 <= tick_multiplier g now.
Proof.
  intros Hle. unfold tick_multiplier.
  assert (H : 0 <= inject_Z (now - startTime g) / 1000 * (5 # 100)).
  { apply Qmult_le_0_compat; [|discriminate].
    apply Qle_shift_div_l; [reflexivity|].
    rewrite Qmult_0_l. change 0 with (inject_Z 0).
    rewrite <- Zle_Qle. lia. }
  lra.
Qed.

Lemma obj_set_set {A} (k : string) (v v' : A) (o : list (string * A)) :
  obj_set k v (obj_set k v' o) = obj_set k v o.
Proof.
  induction o as [|[k0 v0] o IH]; simpl.
  - now rewrite String.eqb_refl.
  - destruct (String.eqb k0 k) eqn:E; simpl.
    + now rewrite String.eqb_refl.
    + now rewrite E, IH.
Qed.

Lemma in_range_get (s : server) (k : string) (g : game) :
  in_range s -> obj_get k (activeGames s) = Some g -> isRunning g = true ->
  1 <= multiplier g /\ multiplier g < crashPoint g.
Proof.
  intros [Hall _] Hg Hrun. rewrite List.Forall_forall in Hall.
  exact (Hall (k, g) (obj_get_In _ _ _ Hg) Hrun).
Qed.

Lemma in_range_endGame (gameId : string) (now : Z) (s : server) :
  in_range s -> in_range (state_of (endGame gameId now s)).
Proof.
  intros Hr.
  destruct (endGame_spec gameId now s) as [->|(g & Hg & Hrun & ->)];
    [exact Hr|].
  destruct Hr as [Hall Hbal]. split; [|exact Hbal].
  unfold_M. simpl. apply Forall_obj_set; [exact Hall|]. simpl. discriminate.
Qed.

Lemma in_range_handle (i : input) (s : server) :
  consistent s -> in_range s -> own_tick i s ->
  in_range (state_of (handle i s)).
Proof.
  intros Hc Hr Hown. pose proof Hr as [Hall Hbal].
  destruct i; unfold handle.
  - unfold api_register. unfold_M.
    destruct (String.eqb name "" || String.eqb pass ""); simpl; [exact Hr|].
    destruct (users s !! name) eqn:Hu; simpl; [exact Hr|].
    split; [exact Hall|]. simpl. intros name' u'. rewrite lookup_insert.
    destruct (decide (name = name')); [|apply Hbal].
    intros [= <-]. discriminate.
  - unfold api_place_bet. unfold_M.
    destruct (users s !! name) as [u|] eqn:Hu; [|exact Hr].
    destruct (obj_get gameId (activeGames s)) as [g|] eqn:Hg; [|exact Hr].
    destruct (negb (isRunning g)) eqn:Hrun; simpl; [exact Hr|].
    apply negb_false_iff in Hrun.
    destruct (Qltb (balance u) amount) eqn:Hb; [exact Hr|].
    destruct (Qltb amount 10) eqn:Hmin; [exact Hr|].
    apply Qltb_ge in Hb. split; simpl.
    + apply Forall_obj_set; [exact Hall|]. simpl. intros _.
      exact (in_range_get s gameId g Hr Hg Hrun).
    + intros name' u'. rewrite lookup_insert.
      destruct (decide (name = name')); [|apply Hbal].
      intros [= <-]. simpl. lra.
  - unfold api_cash_out. unfold_M.
    destruct (users s !! name) as [u|] eqn:Hu; [|exact Hr].
    destruct (obj_get gameId (activeGames s)) as [g|] eqn:Hg; [|exact Hr].
    destruct (negb (isRunning g)) eqn:Hrun; simpl; [exact Hr|].
    apply negb_false_iff in Hrun.
    destruct (list_find _ _) as [[j p]|] eqn:Hfind; [|exact Hr].
    destruct (in_range_get s gameId g Hr Hg Hrun) as [Hm1 Hm2].
    apply list_find_Some in Hfind as (Hj & _ & _).
    pose proof (players_ok s gameId g Hc Hg) as Hps.
    destruct (proj1 (Forall_lookup _ _) Hps j p Hj) as [_ Hbet].
    split; simpl.
    + apply Forall_obj_set; [exact Hall|]. simpl. intros _.
      split; assumption.
    + intros name' u'. rewrite lookup_insert.
      destruct (decide (name = name')); [|apply Hbal].
      intros [= <-]. simpl.
      pose proof (Hbal name u Hu) as Hu0.
      assert (0 <= bet p * multiplier g)
        by (apply Qmult_le_0_compat; lra).
      lra.
  - unfold api_user. unfold_M. destruct (users s !! name); exact Hr.
  - unfold on_user_join. unfold_M. simpl.
    destruct (List.find _ _); exact Hr.
  - unfold on_disconnect. unfold_M. simpl. exact Hr.
  - unfold startNewGame. unfold_M.
    destruct (gameState_isRunning s) eqn:Hstop; [exact Hr|].
    split; [|exact Hbal]. simpl.
    apply Forall_obj_set; [exact Hall|]. simpl. intros _.
    split; [discriminate|apply generateCrashPoint_above_1].
  - unfold mbind, M_bind, mret, M_ret. rewrite tick_spec.
    destruct (current s) as [g|] eqn:Hcur; [|exact Hr].
    destruct (isRunning g) eqn:Hrun; [|exact Hr].
    cbv zeta. simpl in Hown.
    destruct (Hown g Hcur Hrun) as [Hk Hstart].
    assert (Hg : obj_get gameId (activeGames s) = Some g)
      by (unfold current in Hcur; now rewrite Hk in Hcur).
    unfold update_current. rewrite Hk, Hcur.
    destruct (Qgeb _ _) eqn:Hcrash.
    + rewrite (endGame_running gameId endNow _
                 (set_multiplier (tick_multiplier g now) g))
        by (simpl; first [apply obj_get_set_eq|exact Hrun]).
      unfold_M. simpl. split; [|exact Hbal]. simpl.
      rewrite obj_set_set.
      apply Forall_obj_set; [exact Hall|]. simpl. discriminate.
    + unfold_M. simpl. split; [|exact Hbal]. simpl.
      apply Forall_obj_set; [exact Hall|]. simpl. intros _.
      split; [exact (tick_multiplier_ge_1 g now Hstart)|].
      apply Qnot_le_lt. intros Hle. apply Qgeb_le in Hle. congruence.
  - unfold ceiling. unfold_M.
    destruct (gameState_isRunning s); [|exact Hr].
    pose proof (in_range_endGame gameId now s Hr) as H.
    unfold state_of in H. destruct (endGame gameId now s) as [[x s'] out].
    exact H.
Qed.

Lemma handle_consistent (i : input) (s : server) :
  consistent s -> consistent (state_of (handle i s)).
Proof.
  intros Hc. pose proof (handle_transitions i s) as Hrtc.
  induction Hrtc as [|s0 s1 s2 H01 _ IH]; [exact Hc|].
  apply IH. exact (consistent_transition _ _ Hc H01).
Qed.

Lemma run_in_range (ins : list input) :
  forall s, consistent s -> in_range s -> own_ticks ins s ->
            in_range (state_of (run ins s)).
Proof.
  induction ins as [|i ins IH]; intros s Hc Hr Hown.
  - exact Hr.
  - destruct Hown as [Hi Hrest].
    destruct (run_cons i ins s) as [-> _].
    apply IH; [apply handle_consistent; exact Hc| |exact Hrest].
    apply in_range_handle; assumption.
Qed.

Lemma in_range_initial : in_range initial.
Proof.
  split; [constructor|]. intros name u H.
  simpl in H. rewrite lookup_empty in H. discriminate.
Qed.

(** X13. As long as every tick that finds a round running is a tick of
    that round, not before its start, the multiplier of a running round is
    at least 1 and strictly below the crash point of the round. *)
Theorem multiplier_in_range (ins : list input) (k : string) (g : game) :
  own_ticks ins initial ->
  let s := state_of (run ins initial) in
  In (k, g) (activeGames s) ->
  isRunning g = true ->
  1 <= multiplier g /\ multiplier g < crashPoint g.
Proof.
  intros Hown s Hin Hrun.
  destruct (run_in_range ins initial consistent_initial in_range_initial Hown)
    as [Hall _].
  fold s in Hall. rewrite List.Forall_forall in Hall.
  exact (Hall (k, g) Hin Hrun).
Qed.

Lemma own_ticksb_sound (ins : list input) :
  forall s, own_ticksb ins s = true -> own_ticks ins s.
Proof.
  induction ins as [|i ins IH]; intros s H; simpl in *; [exact I|].
  apply andb_prop in H as [Hi Hrest]. split; [|exact (IH _ Hrest)].
  destruct i; simpl in *; try exact I.
  intros g Hcur Hrun. rewrite Hcur, Hrun in Hi.
  destruct (gameState s) as [k|]; simpl in Hi; [|discriminate].
  apply andb_prop in Hi as [Hk Hle].
  apply String.eqb_eq in Hk. subst k. split; [reflexivity|lia].
Qed.

Lemma multiplier_in_range_witness :
  let ins := alice_joins draw_2_00 ++
             [ PlaceBet "alice" "g1" 100 None 1000 "b1";
               Tick "g1" 11000 11000;
               CashOut "alice" "g1";
               Tick "g1" 11100 11100 ] in
  exists g,
    last (activeGames (state_of (run ins initial))) = Some ("g1"%string, g) /\
    isRunning g = true /\
    1 <= multiplier g /\ multiplier g < crashPoint g.
Proof.
  intros ins.
  assert (Hown : own_ticks ins initial).
  { apply own_ticksb_sound. vm_compute. reflexivity. }
  assert (Hg : exists g,
             last (activeGames (state_of (run ins initial)))
             = Some ("g1"%string, g) /\
             isRunning g = true).
  { eexists. split; [vm_compute; reflexivity|reflexivity]. }
  destruct Hg as (g & Hg & Hrun).
  destruct (multiplier_in_range ins "g1" g Hown
              (proj1 (list_elem_of_In _ _) (last_Some_elem_of _ _ Hg)) Hrun)
    as [Hm1 Hm2].
  exact (ex_intro _ g (conj Hg (conj Hrun (conj Hm1 Hm2)))).
Defined.



(** X20. Under the same condition on the ticks, and the amount of a bet
    request being a number, as it is in every [PlaceBet] input, no account
    has a negative balance. *)
Theorem balances_not_negative (ins : list input) (name : string) (u : user) :
  own_ticks ins initial ->
  let s := state_of (run ins initial) in
  users s !! name = Some u ->
  0 <= balance u.
Proof.
  intros Hown s.
  destruct (run_in_range ins initial consistent_initial in_range_initial Hown)
    as [_ Hbal].
  apply Hbal.
Qed.

Lemma balances_not_negative_witness :
  let ins := alice_joins draw_2_00 ++
             [ PlaceBet "alice" "g1" 1000 None 1000 "b1";
               Tick "g1" 11000 11000 ] in
  exists u,
    users (state_of (run ins initial)) !! "alice" = Some u /\
    balance u == 0 /\ 0 <= balance u.
Proof.
  intros ins.
  assert (Hown : own_ticks ins initial).
  { apply own_ticksb_sound. vm_compute. reflexivity. }
  assert (Hu : exists u,
             users (state_of (run ins initial)) !! "alice" = Some u /\
             balance u == 0).
  { eexists. split; [vm_compute; reflexivity|reflexivity]. }
  destruct Hu as (u & Hu & Hzero).
  exact (ex_intro _ u (conj Hu (conj Hzero
           (balances_not_negative ins "alice" u Hown Hu)))).
Defined.

(** ** The distribution of the crash point *)

(** The crash point in hundredths, before the clamp, grows with the
    draw. *)
Lemma raw_cents_mono (h h' : Z) :
  (0 <= h <= h')%Z -> (h' < 2 ^ 32)%Z ->
  ((100 * 2 ^ 32 - h) / (2 ^ 32 - h)
   <= (100 * 2 ^ 32 - h') / (2 ^ 32 - h'))%Z.
Proof.
  intros Hh Hh'.
  replace (100 * 2 ^ 32 - h)%Z with (1 * (2 ^ 32 - h) + 99 * 2 ^ 32)%Z by lia.
  replace (100 * 2 ^ 32 - h')%Z with (1 * (2 ^ 32 - h') + 99 * 2 ^ 32)%Z
    by lia.
  rewrite !Z.div_add_l by lia.
  apply Z.add_le_mono_l. apply Z.div_le_compat_l; lia.
Qed.

Lemma crash_point_cents (h : Z) :
  (0 <= h < 2 ^ 32)%Z ->
  generateCrashPoint h
  == Z.max 101 (Z.min ((100 * 2 ^ 32 - h) / (2 ^ 32 - h)) 10000) # 100.
Proof.
  intros Hh. unfold generateCrashPoint, Math_floor.
  rewrite raw_crash_cents by exact Hh. apply cents_clamp.
Qed.

Lemma crash_point_mono (h h' : Z) :
  (0 <= h <= h')%Z -> (h' < 2 ^ 32)%Z ->
  generateCrashPoint h <= generateCrashPoint h'.
Proof.
  intros Hh Hh'.
  rewrite (crash_point_cents h), (crash_point_cents h') by lia.
  pose proof (raw_cents_mono h h' Hh Hh').
  unfold Qle. simpl. lia.
Qed.

(** X15. A larger draw never gives a smaller crash point. *)
Theorem generateCrashPoint_monotone (h h' : Z) :
  (0 <= h)%Z -> (h <= h')%Z -> (h' < 2 ^ 32)%Z ->
  generateCrashPoint h <= generateCrashPoint h'.
Proof. intros H0 H1 H2. apply crash_point_mono; lia. Qed.

Lemma generateCrashPoint_monotone_witness :
  generateCrashPoint 0 <= generateCrashPoint draw_2_00 /\
  generateCrashPoint draw_2_00 <= generateCrashPoint draw_5_00.
Proof.
  split; apply generateCrashPoint_monotone; unfold draw_2_00, draw_5_00; lia.
Defined.

(** X16. The crash point is the minimum 1.01 exactly for the draws below
    85048858, which are about 1.98 % of the 2^32 draws, and the maximum 100
    exactly for the draws from 4252442868 on, which are about 0.99 % of
    them. *)
Theorem generateCrashPoint_extremes (h : Z) :
  (0 <= h < 2 ^ 32)%Z ->
  (generateCrashPoint h == 101 # 100 <-> (h < 85048858)%Z) /\
  (generateCrashPoint h == 100 <-> (4252442868 <= h)%Z).
Proof.
  intros Hh.
  assert (Hlow : generateCrashPoint 85048857 == 101 # 100)
    by (rewrite crash_point_cents by lia; reflexivity).
  assert (Hlow' : generateCrashPoint 85048858 == 102 # 100)
    by (rewrite crash_point_cents by lia; reflexivity).
  assert (Hhigh : generateCrashPoint 4252442868 == 100)
    by (rewrite crash_point_cents by lia; reflexivity).
  assert (Hhigh' : generateCrashPoint 4252442867 == 9999 # 100)
    by (rewrite crash_point_cents by lia; reflexivity).
  assert (Hmin : 101 # 100 <= generateCrashPoint h)
    by (unfold generateCrashPoint; apply Q.le_max_l).
  assert (Hmax : generateCrashPoint h <= 100).
  { rewrite crash_point_cents by exact Hh. unfold Qle. simpl. lia. }
  split; split.
  - intros Heq. destruct (Z_lt_le_dec h 85048858) as [Hlt|Hge]; [exact Hlt|].
    pose proof (crash_point_mono 85048858 h ltac:(lia) ltac:(lia)) as Hm.
    rewrite Hlow', Heq in Hm. exfalso. revert Hm. unfold Qle. simpl. lia.
  - intros Hlt.
    pose proof (crash_point_mono h 85048857 ltac:(lia) ltac:(lia)) as Hm.
    rewrite Hlow in Hm. apply Qle_antisym; assumption.
  - intros Heq. destruct (Z_lt_le_dec h 4252442868) as [Hlt|Hge]; [|exact Hge].
    pose proof (crash_point_mono h 4252442867 ltac:(lia) ltac:(lia)) as Hm.
    rewrite Hhigh', Heq in Hm. exfalso. revert Hm. unfold Qle. simpl. lia.
  - intros Hge.
    pose proof (crash_point_mono 4252442868 h ltac:(lia) ltac:(lia)) as Hm.
    rewrite Hhigh in Hm. apply Qle_antisym; assumption.
Qed.

Lemma generateCrashPoint_extremes_witness :
  (generateCrashPoint 0 == 101 # 100 <-> (0 < 85048858)%Z) /\
  (generateCrashPoint 0 == 100 <-> (4252442868 <= 0)%Z).
Proof. apply generateCrashPoint_extremes. lia. Defined.

(** ** One account per request *)

Lemma endGame_users (gameId : string) (now : Z) (s : server) :
  users (state_of (endGame gameId now s)) = users s.
Proof.
  destruct (endGame_spec gameId now s) as [->|(g & _ & _ & ->)];
    reflexivity.
Qed.

(** X17. A request changes no account but the one it names, and a tick, a
    timeout, a restart and a socket message change no account at all. *)
Theorem other_accounts_untouched (i : input) (s : server) (name : string) :
  requester i <> Some name ->
  users (state_of (handle i s)) !! name = users s !! name.
Proof.
  intros Hreq. destruct i; unfold handle; simpl in Hreq.
  - unfold api_register. unfold_M.
    destruct (String.eqb name0 "" || String.eqb pass ""); simpl;
      [reflexivity|].
    destruct (users s !! name0); simpl; [reflexivity|].
    apply lookup_insert_ne. congruence.
  - unfold api_place_bet. unfold_M.
    destruct (users s !! name0); [|reflexivity].
    destruct (obj_get gameId (activeGames s)) as [g|]; [|reflexivity].
    destruct (negb (isRunning g)); simpl; [reflexivity|].
    destruct (Qltb _ amount); [reflexivity|].
    destruct (Qltb amount 10); [reflexivity|].
    simpl. apply lookup_insert_ne. congruence.
  - unfold api_cash_out. unfold_M.
    destruct (users s !! name0); [|reflexivity].
    destruct (obj_get gameId (activeGames s)) as [g|]; [|reflexivity].
    destruct (negb (isRunning g)); simpl; [reflexivity|].
    destruct (list_find _ _) as [[j p]|]; [|reflexivity].
    simpl. apply lookup_insert_ne. congruence.
  - unfold api_user. unfold_M. destruct (users s !! name0); reflexivity.
  - unfold on_user_join. unfold_M. simpl.
    destruct (List.find _ _); reflexivity.
  - reflexivity.
  - unfold startNewGame. unfold_M.
    destruct (gameState_isRunning s); reflexivity.
  - unfold mbind, M_bind, mret, M_ret. rewrite tick_spec.
    destruct (current s) as [g|]; [|reflexivity].
    destruct (isRunning g); [|reflexivity].
    cbv zeta.
    destruct (update_current_keeps_bets (tick_multiplier g now) s) as [Hu _].
    destruct (Qgeb _ _).
    + pose proof (endGame_users gameId endNow
        (update_current (set_multiplier (tick_multiplier g now)) s)) as He.
      unfold state_of in *.
      destruct (endGame gameId endNow _) as [[x s'] out]. simpl in *.
      now rewrite He, Hu.
    + unfold_M. simpl. now rewrite Hu.
  - unfold ceiling. unfold_M.
    destruct (gameState_isRunning s); [|reflexivity].
    pose proof (endGame_users gameId now s) as He.
    unfold state_of in *.
    destruct (endGame gameId now s) as [[x s'] out]. simpl in *.
    now rewrite He.
Qed.

Lemma other_accounts_untouched_witness :
  let s := state_of (run (alice_joins draw_2_00 ++
                          [ Register "bob" "pw" "u2" 5 ]) initial) in
  users (state_of (handle (PlaceBet "alice" "g1" 100 None 1500 "b1") s))
    !! "bob"
  = users s !! "bob".
Proof.
  intros s. apply other_accounts_untouched. discriminate.
Defined.

(** ** The entries of the history *)

Lemma history_push_stopped (a : archived) (h : list archived) :
  archived_stopped a -> Forall archived_stopped h ->
  Forall archived_stopped (history_push a h).
Proof.
  intros Ha Hh. rewrite history_push_last. unfold last_n.
  apply Forall_drop. apply Forall_app. split; [exact Hh|].
  constructor; [exact Ha|constructor].
Qed.

(** X18. Whatever the server has done since its start, every entry of
    [gameHistory], and so of the answer of the history endpoint, is a
    round that was stopped: it is not running and it has an end time. *)
Theorem history_holds_stopped_rounds (ins : list input) :
  let s := state_of (run ins initial) in
  Forall archived_stopped (gameHistory s) /\
  Forall archived_stopped (result_of (api_game_history s)).
Proof.
  intros s.
  assert (H : Forall archived_stopped (gameHistory s)).
  { apply (reachable_ind (fun s => Forall archived_stopped (gameHistory s)));
      [constructor| |apply run_reachable].
    intros s0 s1 H0 Ht.
    destruct Ht; simpl; try exact H0.
    - unfold update_current.
      destruct (gameState s0); [|exact H0].
      destruct (current s0); exact H0.
    - apply history_push_stopped; [|exact H0].
      split; [reflexivity|]. simpl. eauto. }
  split; [exact H|].
  unfold api_game_history. unfold_M. simpl.
  apply List.Forall_rev. unfold last_n. apply Forall_drop. exact H.
Qed.

(** ** Games played and games won *)

Section Sums.
Context (f : game -> nat).

Lemma sum_obj_set_some (k : string) (g g' : game) (o : list (string * game)) :
  obj_get k o = Some g ->
  (list_sum (List.map (fun kg => f (snd kg)) (obj_set k g' o)) + f g
   = list_sum (List.map (fun kg => f (snd kg)) o) + f g')%nat.
Proof.
  induction o as [|[k0 g0] o IH]; simpl; [discriminate|].
  destruct (String.eqb k0 k); simpl.
  - intros [= ->]. lia.
  - intros H. specialize (IH H). lia.
Qed.

Lemma sum_obj_set_none (k : string) (g' : game) (o : list (string * game)) :
  obj_get k o = None ->
  list_sum (List.map (fun kg => f (snd kg)) (obj_set k g' o))
  = (list_sum (List.map (fun kg => f (snd kg)) o) + f g')%nat.
Proof.
  induction o as [|[k0 g0] o IH]; simpl; [lia|].
  destruct (String.eqb k0 k); simpl; [discriminate|].
  intros H. specialize (IH H). lia.
Qed.
End Sums.

Lemma open_count_set (name k : string) (g g' : game) (s : server) :
  obj_get k (activeGames s) = Some g ->
  (open_count name (obj_set k g' (activeGames s))
   + length (open_bets name (players g))
   = open_count name (activeGames s)
     + length (open_bets name (players g')))%nat.
Proof.
  intros Hg. unfold open_count.
  exact (sum_obj_set_some (fun g => length (open_bets name (players g)))
           k g g' _ Hg).
Qed.

Lemma open_bets_settle (name : string) (m : Q) (ps : list player) :
  length (open_bets name (List.map (settle m) ps))
  = length (open_bets name ps).
Proof.
  unfold open_bets. induction ps as [|p ps IH]; simpl; [reflexivity|].
  destruct (settle_keeps_bet m p) as (Hn & _ & _ & Hc).
  destruct (decide (open_bet_of name p)) as [Hp|Hp].
  - rewrite (filter_cons_True _ p) by exact Hp.
    rewrite filter_cons_True; [simpl; now rewrite IH|].
    destruct Hp. split; congruence.
  - rewrite (filter_cons_False _ p) by exact Hp.
    rewrite filter_cons_False; [exact IH|].
    intros [H1 H2]. apply Hp. split; congruence.
Qed.

Lemma open_bets_insert_other (name : string) (ps : list player) (i : nat)
    (p p' : player) :
  ps !! i = Some p ->
  ~ open_bet_of name p ->
  ~ open_bet_of name p' ->
  open_bets name (<[i:=p']> ps) = open_bets name ps.
Proof.
  intros Hi Hp Hp'. unfold open_bets.
  rewrite insert_take_drop by (eapply lookup_lt_Some; exact Hi).
  rewrite <- (take_drop_middle ps i p Hi) at 3.
  rewrite !filter_app.
  rewrite filter_cons_False by exact Hp'.
  rewrite filter_cons_False by exact Hp.
  reflexivity.
Qed.

Lemma open_count_unowned (name : string) (s : server) :
  counted s -> users s !! name = None ->
  open_count name (activeGames s) = 0%nat.
Proof.
  intros [_ Hown] Hnone. unfold open_count.
  induction Hown as [|[k g] o Hg _ IH]; simpl; [reflexivity|].
  rewrite IH. simpl in Hg.
  assert (H : open_bets name (players g) = []); [|now rewrite H].
  unfold open_bets. induction Hg as [|p ps Hp _ IHp]; [reflexivity|].
  rewrite filter_cons_False; [exact IHp|].
  intros [Hn _]. rewrite Hn, Hnone in Hp. destruct Hp. discriminate.
Qed.

Lemma owned_mono (s : server) (us : gmap string user) (ps : list player) :
  (forall name, is_Some (users s !! name) -> is_Some (us !! name)) ->
  Forall (fun p => is_Some (users s !! player_username p)) ps ->
  Forall (fun p => is_Some (us !! player_username p)) ps.
Proof.
  intros Hmono. apply List.Forall_impl. intros p. apply Hmono.
Qed.

Lemma counted_initial : counted initial.
Proof.
  split; [|constructor]. intros name u H.
  simpl in H. rewrite lookup_empty in H. discriminate.
Qed.

Lemma counted_transition (s s' : server) :
  consistent s -> counted s -> transition s s' -> counted s'.
Proof.
  intros Hc [Hcount Hown] Ht.
  assert (Hcnt : counted s) by (split; assumption).
  pose proof (users_keyed s Hc) as Hnames.
  destruct Ht as [socketId v|socketId|name pass id now Hname Hpass Hfree
                 |name gameId amount autoCashout now u g Hu Hg Hr Hbal Hmin
                 |name gameId u g i p Hu Hg Hr Hfind
                 |gameId h now Hstop
                 |m g Hcur Hr
                 |gameId now g Hg Hr].
  - split; assumption.
  - split; assumption.
  - split; simpl.
    + intros name' u'. rewrite lookup_insert.
      destruct (decide (name = name')) as [<-|Hne]; [|apply Hcount].
      intros [= <-]. simpl.
      rewrite (open_count_unowned name s Hcnt Hfree). lia.
    + eapply List.Forall_impl; [|exact Hown].
      intros [k g] Hg. simpl in *.
      eapply List.Forall_impl; [|exact Hg].
      intros p Hp. apply lookup_insert_is_Some'. now right.
  - pose proof (open_count_set name gameId g
                  (with_players
                     (players g ++ [new_player u amount autoCashout now]) g)
                  s Hg) as Hsame.
    split; simpl.
    + intros name' u'. rewrite lookup_insert.
      destruct (decide (name = name')) as [<-|Hne].
      * intros [= <-]. simpl. destruct (Hcount name u Hu) as [H0 H1].
        split; [exact H0|].
        simpl in Hsame. unfold open_bets in Hsame at 2.
        rewrite filter_app, length_app in Hsame.
        rewrite (filter_cons_True _ (new_player u amount autoCashout now))
          in Hsame by (split; [exact (Hnames name u Hu)|reflexivity]).
        simpl in Hsame. fold (open_bets name (players g)) in Hsame. lia.
      * intros Hu'. destruct (Hcount name' u' Hu') as [H0 H1].
        split; [exact H0|].
        pose proof (open_count_set name' gameId g
                      (with_players
                         (players g ++ [new_player u amount autoCashout now])
                         g) s Hg) as Hs.
        simpl in Hs. unfold open_bets in Hs at 2.
        rewrite filter_app, length_app in Hs.
        rewrite (filter_cons_False _ (new_player u amount autoCashout now))
          in Hs.
        2:{ intros [Hn _]. simpl in Hn. rewrite (Hnames name u Hu) in Hn.
            contradiction. }
        simpl in Hs. fold (open_bets name' (players g)) in Hs. lia.
    + apply Forall_obj_set.
      * eapply List.Forall_impl; [|exact Hown].
        intros [k g0] Hg0. simpl in *.
        eapply List.Forall_impl; [|exact Hg0].
        intros p Hp. apply lookup_insert_is_Some'. now right.
      * simpl. apply Forall_app. split.
        -- pose proof Hown as Hown'. rewrite List.Forall_forall in Hown'.
           specialize (Hown' (gameId, g) (obj_get_In _ _ _ Hg)).
           eapply List.Forall_impl; [|exact Hown'].
           intros p Hp. apply lookup_insert_is_Some'. now right.
        -- constructor; [|constructor]. simpl.
           apply lookup_insert_is_Some'. left. symmetry.
           exact (Hnames name u Hu).
  - apply list_find_Some in Hfind as (Hi & Hp & _).
    assert (Hp' : forall name', ~ open_bet_of name' (cashed (multiplier g) p))
      by (intros name' [_ H]; discriminate).
    split; simpl.
    + intros name' u'. rewrite lookup_insert.
      pose proof (open_count_set name' gameId g
                    (with_players
                       (<[i:=cashed (multiplier g) p]> (players g)) g)
                    s Hg) as Hs.
      simpl in Hs.
      destruct (decide (name = name')) as [<-|Hne].
      * intros [= <-]. simpl. destruct (Hcount name u Hu) as [H0 H1].
        pose proof (open_bets_insert name (players g) i p
                      (cashed (multiplier g) p) Hi Hp (Hp' name)) as Hone.
        destruct (Qltb _ _); split; lia.
      * intros Hu'. destruct (Hcount name' u' Hu') as [H0 H1].
        rewrite (open_bets_insert_other name' (players g) i p _ Hi) in Hs;
          [split; [exact H0|lia]| |apply Hp'].
        intros [Hn _]. destruct Hp as [Hn' _]. congruence.
    + apply Forall_obj_set.
      * eapply List.Forall_impl; [|exact Hown].
        intros [k g0] Hg0. simpl in *.
        eapply List.Forall_impl; [|exact Hg0].
        intros q Hq. apply lookup_insert_is_Some'. now right.
      * simpl. pose proof Hown as Hown'. rewrite List.Forall_forall in Hown'.
        specialize (Hown' (gameId, g) (obj_get_In _ _ _ Hg)). simpl in Hown'.
        apply Forall_insert.
        -- eapply List.Forall_impl; [|exact Hown'].
           intros q Hq. apply lookup_insert_is_Some'. now right.
        -- simpl. apply lookup_insert_is_Some'. right.
           exact (proj1 (Forall_lookup _ _) Hown' i p Hi).
  - split; simpl.
    + intros name u Hu. destruct (Hcount name u Hu) as [H0 H1].
      split; [exact H0|].
      destruct (obj_get gameId (activeGames s)) as [g|] eqn:Hg.
      * pose proof (open_count_set name gameId g
                      (new_game gameId (generateCrashPoint h) now) s Hg) as Hs.
        simpl in Hs. lia.
      * unfold open_count.
        rewrite (sum_obj_set_none
                   (fun g => length (open_bets name (players g))) _ _ _ Hg).
        simpl. fold (open_count name (activeGames s)). lia.
    + apply Forall_obj_set; [exact Hown|]. simpl. constructor.
  - destruct (current_get s g Hcur) as (k & Hk & Hg).
    unfold update_current. rewrite Hk, Hcur.
    split; simpl.
    + intros name u Hu. destruct (Hcount name u Hu) as [H0 H1].
      split; [exact H0|].
      pose proof (open_count_set name k g (set_multiplier m g) s Hg) as Hs.
      simpl in Hs. lia.
    + apply Forall_obj_set; [exact Hown|]. simpl.
      rewrite List.Forall_forall in Hown.
      exact (Hown (k, g) (obj_get_In _ _ _ Hg)).
  - split; simpl.
    + intros name u Hu. destruct (Hcount name u Hu) as [H0 H1].
      split; [exact H0|].
      pose proof (open_count_set name gameId g (finished g now) s Hg) as Hs.
      simpl in Hs. rewrite open_bets_settle in Hs. lia.
    + apply Forall_obj_set; [exact Hown|]. simpl.
      rewrite List.Forall_forall in Hown.
      specialize (Hown (gameId, g) (obj_get_In _ _ _ Hg)). simpl in Hown.
      apply List.Forall_map.
      eapply List.Forall_impl; [|exact Hown].
      intros p Hp. destruct (settle_keeps_bet (multiplier g) p) as [-> _].
      exact Hp.
Qed.

Lemma reachable_counted (s : server) : reachable s -> counted s.
Proof.
  intros Hs.
  assert (H : consistent s /\ counted s); [|exact (proj2 H)].
  revert s Hs. apply reachable_ind.
  - split; [exact consistent_initial|exact counted_initial].
  - intros s0 s1 [Hc Hcnt] Ht. split.
    + exact (consistent_transition _ _ Hc Ht).
    + exact (counted_transition _ _ Hc Hcnt Ht).
Qed.

(** X19. In every state the server can reach, an account has won at most
    as many games as it has played, its open bets not counted: the games
    won plus the open bets of the account, in all the games, are at most
    the games played. *)
Theorem games_won_at_most_played
    (ins : list input) (name : string) (u : user) :
  let s := state_of (run ins initial) in
  users s !! name = Some u ->
  (0 <= gamesWon u)%Z /\
  (gamesWon u + Z.of_nat (open_count name (activeGames s))
   <= gamesPlayed u)%Z.
Proof.
  intros s Hu.
  destruct (reachable_counted s (run_reachable ins)) as [Hcount _].
  exact (Hcount name u Hu).
Qed.

Lemma games_won_at_most_played_witness :
  let ins := alice_joins draw_2_00 ++
             [ PlaceBet "alice" "g1" 100 None 1000 "b1";
               PlaceBet "alice" "g1" 50 None 1000 "b2";
               Tick "g1" 11000 11000;
               CashOut "alice" "g1" ] in
  exists u,
    users (state_of (run ins initial)) !! "alice" = Some u /\
    gamesPlayed u = 2%Z /\ gamesWon u = 1%Z /\
    open_count "alice" (activeGames (state_of (run ins initial))) = 1%nat /\
    (gamesWon u + 1 <= gamesPlayed u)%Z.
Proof.
  intros ins.
  assert (Hu : exists u,
             users (state_of (run ins initial)) !! "alice" = Some u /\
             gamesPlayed u = 2%Z /\ gamesWon u = 1%Z).
  { eexists. split; [vm_compute; reflexivity|]. split; reflexivity. }
  assert (Hn : open_count "alice" (activeGames (state_of (run ins initial)))
               = 1%nat) by (vm_compute; reflexivity).
  destruct Hu as (u & Hu & Hplayed & Hwon).
  destruct (games_won_at_most_played ins "alice" u Hu) as (_ & Hle).
  rewrite Hn in Hle.
  exact (ex_intro _ u (conj Hu (conj Hplayed (conj Hwon (conj Hn Hle))))).
Defined.
